(** * AviaNZ IF experiment: the parameter sweep of [IF_experiment_cuda.py]

    A shallow embedding of the utility functions and of the grid search of
    [src/IF_experiment_cuda.py], and the properties of the specification
    checked against it.

    Numbers.  Python's [float] and numpy's [float64] are IEEE 754 binary64
    values.  They are modelled by [spec_float] (the Standard Library's
    executable specification of IEEE arithmetic) at precision 53 and maximal
    exponent 1024, so NaN, the infinities, signed zeros and rounding are those
    of the program.  Python integers are [Z].

    Exceptions.  A Python call either returns or raises; fallible code returns
    a [result].  The sweep threads a state (log file, running best, standard
    output, the calls made to the external libraries) through an
    exception-and-state monad.  Writing to the log file is taken to succeed.
    Of the [print] calls only the diagnostic of [set_if_fun] is kept: the
    others display values, change nothing and cannot raise.

    External libraries ([SignalProc], [IF], [fdasrsf], libm's [pow] and
    [log10], [np.arange]) are not part of the repository: they are the fields
    of a record of collaborators over which the development is parameterised. *)

From Stdlib Require Import ZArith String List Bool Lia.
From Stdlib Require Import Floats.SpecFloat.
Import ListNotations.

Local Open Scope string_scope.
Local Open Scope list_scope.
Local Open Scope Z_scope.

(* ================================================================= *)
(** ** Binary64 arithmetic *)

Module F64.

Definition prec : Z := 53.
Definition emax : Z := 1024.

Definition float := spec_float.

Definition zero : float := S754_zero false.
Definition inf : float := S754_infinity false.
Definition nan : float := S754_nan.

(** Conversion of a Python integer, rounding to nearest even. *)
Definition of_Z (z : Z) : float := binary_normalize prec emax z 0 false.

Definition add : float -> float -> float := SFadd prec emax.
Definition sub : float -> float -> float := SFsub prec emax.
Definition mul : float -> float -> float := SFmul prec emax.
Definition div : float -> float -> float := SFdiv prec emax.
Definition sqrt : float -> float := SFsqrt prec emax.
Definition ltb : float -> float -> bool := SFltb.
Definition leb : float -> float -> bool := SFleb.

Definition is_nan (x : float) : bool :=
  match x with S754_nan => true | _ => false end.
Definition is_zero (x : float) : bool :=
  match x with S754_zero _ => true | _ => false end.
Definition is_inf (x : float) : bool :=
  match x with S754_infinity _ => true | _ => false end.
(** Neither NaN nor an infinity. *)
Definition is_finite (x : float) : bool :=
  match x with S754_zero _ | S754_finite _ _ _ => true | _ => false end.

(** [int(x)]: truncation toward zero; Python raises on NaN and on the
    infinities, which is [None] here. *)
Definition trunc (x : float) : option Z :=
  match x with
  | S754_zero _ => Some 0
  | S754_finite s m e =>
      let a := if 0 <=? e then Z.shiftl (Zpos m) e else Z.shiftr (Zpos m) (- e) in
      Some (if s then - a else a)
  | _ => None
  end.

End F64.

Abbreviation float := F64.float.

Declare Scope fl_scope.
Delimit Scope fl_scope with fl.
Bind Scope fl_scope with F64.float.
Infix "+" := F64.add : fl_scope.
Infix "-" := F64.sub : fl_scope.
Infix "*" := F64.mul : fl_scope.
Infix "/" := F64.div : fl_scope.
Infix "<?" := F64.ltb : fl_scope.
Infix "<=?" := F64.leb : fl_scope.

(** Integer literals of the source read as floats where Python converts them. *)
Notation "# z" := (F64.of_Z z) (at level 1, format "# z") : fl_scope.

(* ================================================================= *)
(** ** Python values, exceptions and results *)

Inductive exn : Type :=
| ZeroDivisionError
| OverflowError
| ValueError (msg : string)
| IndexError
| KeyError (key : string)
| NameError (name : string)
| UnboundLocalError (name : string)
| ExternalError (msg : string).   (* raised inside an external library *)

Inductive result (A : Type) : Type :=
| Ok (a : A)
| Raise (e : exn).
Arguments Ok {A} a.
Arguments Raise {A} e.

Definition rbind {A B} (r : result A) (k : A -> result B) : result B :=
  match r with Ok a => k a | Raise e => Raise e end.

Inductive pyval : Type :=
| VInt (z : Z)
| VFloat (x : float)
| VStr (s : string)
| VEmptyList.                      (* the literal [[]] *)

(** Python's [x / y] on floats raises on a zero divisor; numpy's [x / y] on
    [float64] follows IEEE (an infinity or NaN, and a warning). *)
Definition py_div (x y : float) : result float :=
  if F64.is_zero y then Raise ZeroDivisionError else Ok (x / y)%fl.

Definition np_div (x y : float) : float := (x / y)%fl.

(** [int(x)] *)
Definition py_int (x : float) : result Z :=
  match F64.trunc x with
  | Some z => Ok z
  | None => if F64.is_nan x then Raise (ValueError "cannot convert float NaN to integer")
            else Raise OverflowError
  end.

(* ================================================================= *)
(** ** numpy arrays *)

(** One-dimensional [float64] arrays. *)
Definition ndarray := list float.

(** Two-dimensional arrays, stored row by row. *)
Record ndarray2 : Type := mk_ndarray2 {
  shape0 : nat;
  shape1 : nat;
  cells : list float
}.

Definition well_shaped (A : ndarray2) : Prop :=
  length (cells A) = (shape0 A * shape1 A)%nat.

(** [A.T] *)
Definition transpose (A : ndarray2) : ndarray2 :=
  {| shape0 := shape1 A;
     shape1 := shape0 A;
     cells := flat_map (fun j => map (fun i => nth (i * shape1 A + j) (cells A) F64.zero)
                                     (seq 0 (shape0 A)))
                       (seq 0 (shape1 A)) |}.

(** [A[0, :]] *)
Definition row0 (A : ndarray2) : result ndarray :=
  match shape0 A with
  | O => Raise IndexError
  | S _ => Ok (firstn (shape1 A) (cells A))
  end.

Fixpoint map2 {A B C} (f : A -> B -> C) (l : list A) (l' : list B) : list C :=
  match l, l' with
  | x :: t, y :: t' => f x y :: map2 f t t'
  | _, _ => []
  end.

(** Elementwise binary operation on one-dimensional arrays, with numpy's
    broadcasting: equal lengths, or one operand of length 1; anything else
    raises [ValueError]. *)
Definition broadcast (f : float -> float -> float) (a b : ndarray) : result ndarray :=
  if (length a =? length b)%nat then Ok (map2 f a b)
  else match a, b with
       | _, [y] => Ok (map (fun x => f x y) a)
       | [x], _ => Ok (map (fun y => f x y) b)
       | _, _ => Raise (ValueError "operands could not be broadcast together")
       end.

Definition np_sub : ndarray -> ndarray -> result ndarray := broadcast F64.sub.

(** [a - c] for a scalar [c]. *)
Definition np_sub_scalar (a : ndarray) (c : float) : ndarray :=
  map (fun x => (x - c)%fl) a.

(** [a ** 2]: numpy squares by multiplication. *)
Definition np_square (a : ndarray) : ndarray := map (fun x => (x * x)%fl) a.

(** [np.sum]: the reduction starts from the first element; the empty sum is
    [0.0].  (numpy adds long arrays pairwise; the order of the additions
    changes the rounding only.) *)
Definition np_sum (a : ndarray) : float :=
  match a with
  | [] => F64.zero
  | x :: t => fold_left F64.add t x
  end.

Definition np_len (a : ndarray) : float := F64.of_Z (Z.of_nat (length a)).

(** [np.mean]: the sum over the count; NaN (and a warning) on an empty array. *)
Definition np_mean (a : ndarray) : float := np_div (np_sum a) (np_len a).

Definition np_dot (a b : ndarray) : float := np_sum (map2 F64.mul a b).

(** [numpy.linalg.norm(x, ord=2)] of a vector: [sqrt(dot(x, x))]. *)
Definition norm (x : ndarray) : float := F64.sqrt (np_dot x x).

(** [np.linspace(start, stop, num)], end point included:
    [arange(num) * step + start] with [step = (stop - start) / (num - 1)],
    and the last element set to [stop]. *)
Definition np_linspace (start stop : float) (num : nat) : ndarray :=
  match num with
  | O => []
  | S O => [start]
  | S n =>
      let step := ((stop - start) / F64.of_Z (Z.of_nat n))%fl in
      map (fun i => (F64.of_Z (Z.of_nat i) * step + start)%fl) (seq 0 n) ++ [stop]
  end.

(* ================================================================= *)
(** ** External collaborators *)

(** What the program calls and the repository does not define.  Each call is a
    function of its arguments; a call that can fail returns a [result]. *)
Record Libs : Type := {
  (** [np.log10] on a scalar *)
  np_log10 : float -> float;
  (** [np.power(x, y)] on scalars: C's [pow], which never raises *)
  np_power : float -> float -> float;
  (** Python's [x ** y] on floats, which raises [OverflowError] on overflow *)
  py_pow : float -> float -> result float;
  (** [np.arange(start, stop, step)] *)
  np_arange : float -> float -> float -> ndarray;
  (** [SignalProc.readWav(path)]: the sample rate and the number of samples *)
  readWav : string -> result (Z * Z);
  (** [SignalProc.spectrogram(window_width, incr, window, sgType, sgScale)]
      on the file read before *)
  spectrogram : string -> Z -> Z -> string -> string -> string -> result ndarray2;
  (** [SignalProc.convertHztoMel] *)
  convertHztoMel : float -> float;
  (** [IF(method=2, pars=[alpha, beta]).ecurve(TFR, freqarr, wopt)]: the
      first component of its result *)
  ecurve : float -> float -> ndarray2 -> ndarray -> Z * Z -> result ndarray2;
  (** [fdasrsf.geodesic.geod_sphere(beta1, beta2)]: the first component *)
  geod_sphere : ndarray2 -> ndarray2 -> result float
}.

(* ================================================================= *)
(** ** Utility functions *)

Section Utilities.

Variable L : Libs.

(** [Signal_to_noise_Ratio(signal, noise)] *)
Definition Signal_to_noise_Ratio (signal noise : ndarray) : pyval :=
  if (length noise =? 0)%nat then VInt 0
  else VFloat (#10 * np_log10 L
                 (np_div (np_div (np_sum (np_square signal)) (np_len signal))
                         (np_div (np_mean (np_square noise)) (np_len noise))))%fl.

(** [Iatsenko_style(s1, s2)]; [s1] is the reference.  The bare [except]
    catches whatever the expression raises. *)
Definition Iatsenko_style (s1 s2 : ndarray) : float :=
  match np_sub s1 s2 with
  | Ok d => np_div (np_mean (np_square d))
                   (np_mean (np_square (np_sub_scalar s1 (np_mean s1))))
  | Raise _ => F64.nan
  end.

(** [np.column_stack([x, y]).T]: the 2 x N array of rows [x] and [y]. *)
Definition column_stack_T (x y : ndarray) : result ndarray2 :=
  if (length x =? length y)%nat
  then Ok {| shape0 := 2; shape1 := length x; cells := x ++ y |}
  else Raise (ValueError "all the input array dimensions must match").

(** [Geodesic_curve_distance(x1, y1, x2, y2)] *)
Definition Geodesic_curve_distance (x1 y1 x2 y2 : ndarray) : result float :=
  rbind (column_stack_T x1 y1) (fun beta1 =>
  rbind (column_stack_T x2 y2) (fun beta2 =>
  geod_sphere L beta1 beta2)).

(** [set_if_fun(signal_id, T)]: what it prints, and the function it returns.
    On an unknown identifier it prints a message and then reads the local
    [if_fun], which no branch has assigned. *)
Definition set_if_fun (signal_id : string) (T : float)
  : list string * result (float -> float) :=
  if (signal_id =? "pure_tone")%string then
    let omega := 2000 in
    ([], Ok (fun t => #omega * #1)%fl)
  else if (signal_id =? "exponential_downchirp")%string then
    let omega_1 := 500 in
    let omega_0 := 2000 in
    ([], rbind (py_div #omega_1 #omega_0) (fun r =>
         rbind (py_div #1 T) (fun e =>
         rbind (py_pow L r e) (fun alpha =>
         Ok (fun x => #omega_0 * np_power L alpha x)%fl))))
  else if (signal_id =? "exponential_upchirp")%string then
    let omega_1 := 2000 in
    let omega_0 := 500 in
    ([], rbind (py_div #omega_1 #omega_0) (fun r =>
         rbind (py_div #1 T) (fun e =>
         rbind (py_pow L r e) (fun alpha =>
         Ok (fun x => #omega_0 * np_power L alpha x)%fl))))
  else if (signal_id =? "linear_downchirp")%string then
    let omega_1 := 500 in
    let omega_0 := 2000 in
    ([], rbind (py_div #(omega_1 - omega_0) T) (fun c =>
         Ok (fun x => #omega_0 + c * x)%fl))
  else if (signal_id =? "linear_upchirp")%string then
    let omega_1 := 2000 in
    let omega_0 := 500 in
    ([], rbind (py_div #(omega_1 - omega_0) T) (fun c =>
         Ok (fun x => #omega_0 + c * x)%fl))
  else
    (["ERROR SIGNAL ID NOT CONSISTENT WITH THE IF WE CAN HANDLE"],
     Raise (UnboundLocalError "if_fun")).

End Utilities.

(* ================================================================= *)
(** ** The sweep: state, log file and monad *)

(** A field of a row of the CSV log. *)
Inductive cell : Type :=
| CInt (z : Z)
| CFloat (x : float)
| CStr (s : string)
| CEmpty.                          (* [restval], the empty string *)

Definition row := list cell.

(** Calls to the external libraries, in the order they are made. *)
Inductive call : Type :=
| CallReadWav (path : string)
| CallSpectrogram (window_width incr : Z) (window_type : string)
| CallEcurve (alpha beta : float)
| CallGeodSphere.

Record sweep_state : Type := mk_state {
  csv : list row;                      (* find_optimal_parameters_log.csv *)
  stdout : list string;                (* the diagnostic of [set_if_fun] *)
  calls : list call;
  opt : float;                         (* the running best measure *)
  opt_param : list (string * pyval);   (* the dictionary of best parameters *)
  locals_bound : bool;                 (* the loop body's locals are bound *)
  fstep_bound : bool                   (* [fstep] is bound *)
}.

Definition M (A : Type) : Type := sweep_state -> result A * sweep_state.

Definition ret {A} (a : A) : M A := fun st => (Ok a, st).
Definition raise {A} (e : exn) : M A := fun st => (Raise e, st).
Definition bind {A B} (m : M A) (k : A -> M B) : M B :=
  fun st => match m st with
            | (Ok a, st') => k a st'
            | (Raise e, st') => (Raise e, st')
            end.
Definition lift {A} (r : result A) : M A := fun st => (r, st).
Definition gets {A} (f : sweep_state -> A) : M A := fun st => (Ok (f st), st).
Definition modify (f : sweep_state -> sweep_state) : M unit := fun st => (Ok tt, f st).

Notation "x <- m ;; k" := (bind m (fun x => k))
  (at level 61, m at next level, right associativity).
Notation "' pat <- m ;; k" := (bind m (fun x => match x with pat => k end))
  (at level 61, pat pattern, m at next level, right associativity).
Notation "m ;; k" := (bind m (fun _ => k))
  (at level 61, right associativity).

(** [for x in xs: body(x)]; an exception leaves the loop. *)
Fixpoint for_each {A} (xs : list A) (body : A -> M unit) : M unit :=
  match xs with
  | [] => ret tt
  | x :: rest => body x ;; for_each rest body
  end.

Definition set_csv (c : list row) (st : sweep_state) : sweep_state :=
  mk_state c (stdout st) (calls st) (opt st) (opt_param st) (locals_bound st) (fstep_bound st).
Definition set_stdout (o : list string) (st : sweep_state) : sweep_state :=
  mk_state (csv st) o (calls st) (opt st) (opt_param st) (locals_bound st) (fstep_bound st).
Definition set_calls (c : list call) (st : sweep_state) : sweep_state :=
  mk_state (csv st) (stdout st) c (opt st) (opt_param st) (locals_bound st) (fstep_bound st).
Definition set_opt (o : float) (st : sweep_state) : sweep_state :=
  mk_state (csv st) (stdout st) (calls st) o (opt_param st) (locals_bound st) (fstep_bound st).
Definition set_opt_param (d : list (string * pyval)) (st : sweep_state) : sweep_state :=
  mk_state (csv st) (stdout st) (calls st) (opt st) d (locals_bound st) (fstep_bound st).
Definition set_locals_bound (b : bool) (st : sweep_state) : sweep_state :=
  mk_state (csv st) (stdout st) (calls st) (opt st) (opt_param st) b (fstep_bound st).
Definition set_fstep_bound (b : bool) (st : sweep_state) : sweep_state :=
  mk_state (csv st) (stdout st) (calls st) (opt st) (opt_param st) (locals_bound st) b.

Definition log_call (c : call) : M unit := modify (fun st => set_calls (calls st ++ [c]) st).
Definition print (lines : list string) : M unit :=
  modify (fun st => set_stdout (stdout st ++ lines) st).

(** Python dictionaries, in insertion order. *)
Fixpoint dict_get {V} (k : string) (d : list (string * V)) : option V :=
  match d with
  | [] => None
  | (k', v) :: rest => if (k' =? k)%string then Some v else dict_get k rest
  end.

Fixpoint dict_set {V} (k : string) (v : V) (d : list (string * V)) : list (string * V) :=
  match d with
  | [] => [(k, v)]
  | (k', v') :: rest => if (k' =? k)%string then (k, v) :: rest else (k', v') :: dict_set k v rest
  end.

(** [d[k]] *)
Definition subscript {V} (d : list (string * V)) (k : string) : result V :=
  match dict_get k d with Some v => Ok v | None => Raise (KeyError k) end.

(** [csv.DictWriter(csvfile, fieldnames).writerow(d)]: a key outside
    [fieldnames] raises; a field without a key is written as [restval]. *)
Definition DictWriter_writerow (fieldnames : list string) (d : list (string * cell))
  : result row :=
  if forallb (fun kv => existsb (String.eqb (fst kv)) fieldnames) d
  then Ok (map (fun k => match dict_get k d with Some c => c | None => CEmpty end) fieldnames)
  else Raise (ValueError "dict contains fields not in fieldnames").

Definition DictWriter_writeheader (fieldnames : list string) : row := map CStr fieldnames.

(* ================================================================= *)
(** ** [find_optimal_spec_IF_parameters] *)

(** The parameter grids.  A decimal literal is the double nearest to it, which
    is the correctly rounded quotient written here. *)
Definition win : list Z := [32; 64; 128; 256; 1024; 2048; 4096].
Definition hop_perc : list float :=
  [#1 / #10; #1 / #4; #1 / #2; #3 / #4; #9 / #10]%fl.
Definition win_type : list string :=
  ["Hann"; "Parzen"; "Welch"; "Hamming"; "Blackman"; "BlackmanHarris"].
Definition alpha_list : list float :=
  [#0; #1 / #4; #1 / #2; #1; #2; #4; #6; #8; #10; #15; #20]%fl.
Definition beta_list : list float :=
  [#0; #1 / #4; #1 / #2; #1; #2; #4; #6; #8; #10; #15; #20]%fl.

Definition fieldnames : list string :=
  ["window_width"; "incr"; "window type"; "alpha"; "beta"; "spec dim"; "measure"].

Definition opt_param_init : list (string * pyval) :=
  [("window_lenght", VEmptyList); ("hop", VEmptyList); ("window_type", VEmptyList);
   ("alpha", VEmptyList); ("beta", VEmptyList)].

(** [np.shape(TFR)[0] * np.shape(TFR)[1]] *)
Definition spec_dim (TFR : ndarray2) : Z := Z.of_nat (shape0 TFR) * Z.of_nat (shape1 TFR).

(** Line 249, the L2 measure:
    [norm(tfsupp[0, :] - inst_freq, ord=2) / (np.shape(TFR)[0] * np.shape(TFR)[1])] *)
Definition L2_measure (tfsupp0 inst_freq : ndarray) (TFR : ndarray2) : result float :=
  rbind (np_sub tfsupp0 inst_freq) (fun d =>
  Ok (np_div (norm d) #(spec_dim TFR))).

Section Sweep.

Variable L : Libs.
(** The arguments of the function.  [save_dir] only names the directory of
    the log file and [norm_type] is not used by the source; the model has
    one log file and leaves both out. *)
Variables signal_path signal_id spectrogram_type freq_scale opt_metric : string.

(** Lines 219-244: the spectrogram of the grid point and the curve extracted
    from it.  Returns [window_width], [incr], [TFR], [tfsupp] and the
    duration [T]. *)
Definition extract_if (win_len : Z) (hop : float) (window_type : string)
                      (alpha beta : float) : M (Z * Z * ndarray2 * ndarray2 * float) :=
  let window_width := win_len in
  incr <- lift (py_int (#win_len * hop)%fl) ;;
  log_call (CallReadWav signal_path) ;;
  '(fs, fileLength) <- lift (readWav L signal_path) ;;
  log_call (CallSpectrogram window_width incr window_type) ;;
  TFR <- lift (spectrogram L signal_path window_width incr window_type
                           spectrogram_type freq_scale) ;;
  let TFR := transpose TFR in
  freqarr <-
    (if (freq_scale =? "Linear")%string then
       fstep <- lift (py_div (#fs / #2)%fl #(Z.of_nat (shape0 TFR))) ;;
       modify (set_fstep_bound true) ;;
       ret (np_arange L fstep (#fs / #2 + fstep)%fl fstep)
     else
       let nfilters := 40%nat in
       ret (tl (np_linspace (convertHztoMel L #0) (convertHztoMel L (#fs / #2)%fl)
                            (nfilters + 1)))) ;;
  let wopt := (fs, window_width) in
  log_call (CallEcurve alpha beta) ;;
  tfsupp <- lift (ecurve L alpha beta TFR freqarr wopt) ;;
  T <- lift (py_div #fileLength #fs) ;;
  ret (window_width, incr, TFR, tfsupp, T).

(** Lines 245-254: the ground truth sampled on the time axis of the curve,
    and the selected measure. *)
Definition measure_point (TFR tfsupp : ndarray2) (T : float) : M float :=
  print (fst (set_if_fun L signal_id T)) ;;
  inst_freq_fun <- lift (snd (set_if_fun L signal_id T)) ;;
  tfsupp0 <- lift (row0 tfsupp) ;;
  let inst_freq := map inst_freq_fun (np_linspace #0 T (length tfsupp0)) in
  if (opt_metric =? "L2")%string then
    lift (L2_measure tfsupp0 inst_freq TFR)
  else if (opt_metric =? "Iatsenko")%string then
    ret (Iatsenko_style inst_freq tfsupp0)
  else
    let t_support := np_linspace #0 T (length tfsupp0) in
    log_call CallGeodSphere ;;
    lift (Geodesic_curve_distance L t_support tfsupp0 t_support inst_freq).

(** Lines 219-254: from the grid point to what the log records of it:
    [window_width], [incr], the number of cells of [TFR], [measure2check]. *)
Definition evaluate_point (win_len : Z) (hop : float) (window_type : string)
                          (alpha beta : float) : M (Z * Z * Z * float) :=
  '(window_width, incr, TFR, tfsupp, T) <-
      extract_if win_len hop window_type alpha beta ;;
  measure2check <- measure_point TFR tfsupp T ;;
  modify (set_locals_bound true) ;;
  ret (window_width, incr, spec_dim TFR, measure2check).

(** Lines 256-267: the row of the log, and the running best. *)
Definition log_and_update (window_width incr spec_dim : Z) (measure2check : float)
  : M unit :=
  r <- lift (DictWriter_writerow fieldnames
               [("window_width", CInt window_width); ("incr", CInt incr);
                ("spec dim", CInt spec_dim); ("measure", CFloat measure2check)]) ;;
  modify (fun st => set_csv (csv st ++ [r]) st) ;;
  best <- gets opt ;;
  if (measure2check <? best)%fl then
    modify (set_opt measure2check) ;;
    modify (fun st => set_opt_param (dict_set "win_len" (VInt window_width) (opt_param st)) st) ;;
    modify (fun st => set_opt_param (dict_set "hop" (VInt incr) (opt_param st)) st)
  else ret tt.

(** The body of the innermost loop. *)
Definition grid_point (win_len : Z) (hop : float) (window_type : string)
                      (alpha beta : float) : M unit :=
  '(window_width, incr, spec_dim, measure2check) <-
      evaluate_point win_len hop window_type alpha beta ;;
  log_and_update window_width incr spec_dim measure2check.

(** Line 269, [del TFR, fstep, ...] at the end of the body of the loop over
    [hop_perc]: deleting an unbound local raises. *)
Definition del_locals : M unit :=
  bound <- gets locals_bound ;;
  if negb bound then raise (UnboundLocalError "TFR")
  else
    fstep <- gets fstep_bound ;;
    if negb fstep then raise (UnboundLocalError "fstep")
    else modify (set_locals_bound false) ;; modify (set_fstep_bound false).

(** The five nested loops over given grids. *)
Definition sweep_loops (win : list Z) (hop_perc : list float) (win_type : list string)
                       (alpha_list beta_list : list float) : M unit :=
  for_each win (fun win_len =>
    for_each hop_perc (fun hop =>
      for_each win_type (fun window_type =>
        for_each alpha_list (fun alpha =>
          for_each beta_list (fun beta =>
            grid_point win_len hop window_type alpha beta))) ;;
      del_locals)).

(** Lines 202-211: the running best, and the log file opened for writing
    (which empties it) with its header. *)
Definition sweep_init : M unit :=
  modify (set_opt F64.inf) ;;
  modify (set_opt_param opt_param_init) ;;
  modify (set_locals_bound false) ;;
  modify (set_fstep_bound false) ;;
  modify (set_csv [DictWriter_writeheader fieldnames]).

(** Lines 271-274.  [window_length_opt], [incr_opt], [window_type_opt],
    [alpha_opt] and [beta_opt] are assigned nowhere, in the function or in
    the module: reading the first one raises [NameError]. *)
Definition sweep_return : M (Z * Z * string * float * float) :=
  d <- gets opt_param ;;
  window_width <- lift (subscript d "win_len") ;;
  incr <- lift (subscript d "hop") ;;
  raise (NameError "window_length_opt").

(** The function over given grids, and the function itself. *)
Definition sweep_on (win : list Z) (hop_perc : list float) (win_type : list string)
                    (alpha_list beta_list : list float)
  : M (Z * Z * string * float * float) :=
  sweep_init ;;
  sweep_loops win hop_perc win_type alpha_list beta_list ;;
  sweep_return.

Definition find_optimal_spec_IF_parameters : M (Z * Z * string * float * float) :=
  sweep_on win hop_perc win_type alpha_list beta_list.

End Sweep.

(** The state before a call: no log file, nothing printed or called. *)
Definition fresh : sweep_state :=
  mk_state [] [] [] F64.zero [] false false.

(* ================================================================= *)
(** ** Notions of the specification *)

(** The five signal classes of the specification. *)
Definition recognized (signal_id : string) : bool :=
  existsb (String.eqb signal_id)
    ["pure_tone"; "exponential_downchirp"; "exponential_upchirp";
     "linear_downchirp"; "linear_upchirp"].

(** The Euclidean norm of the pointwise difference of two sequences. *)
Definition pointwise_difference (a b : list float) : list float :=
  map (fun p => (fst p - snd p)%fl) (combine a b).

Definition sum_of_squares (v : list float) : float :=
  match v with
  | [] => F64.zero
  | x :: t => fold_left (fun acc y => (acc + y * y)%fl) t (x * x)%fl
  end.

Definition euclidean_norm (v : list float) : float := F64.sqrt (sum_of_squares v).

(** The total number of cells of a spectrogram. *)
Definition cell_count (A : ndarray2) : nat := length (cells A).

(** The variance of a sequence about its own mean, as [Iatsenko_style]
    computes it for its reference. *)
Definition variance (s : ndarray) : float :=
  np_mean (np_square (np_sub_scalar s (np_mean s))).

(** The minimum of the measures seen so far, from plus infinity. *)
Definition running_best (ms : list float) : float :=
  fold_left (fun best m => if (m <? best)%fl then m else best) ms F64.inf.

(** The measure column of the data rows of a log. *)
Definition measure_of_row (r : row) : list float :=
  match nth_error r 6 with
  | Some (CFloat x) => [x]
  | _ => []
  end.

Definition measures_logged (log : list row) : list float := flat_map measure_of_row log.

(** The header of the log. *)
Definition header : row := DictWriter_writeheader fieldnames.

(* ================================================================= *)
(** ** Concrete collaborators, for the examples *)

Module Demo.

(** A stand-in for [pow]: exact on a zero exponent, the base otherwise. *)
Definition pow_stub (x y : float) : float := if F64.is_zero y then #1%fl else x.

(** A two second recording at 16 kHz; a 2 x 3 spectrogram; a curve that
    misses the tone at 2000 Hz by [alpha] and [beta]. *)
Definition libs : Libs :=
  {| np_log10 := fun x => x;
     np_power := pow_stub;
     py_pow := fun x y => Ok (pow_stub x y);
     np_arange := fun start _ _ => [start];
     readWav := fun _ => Ok (16000, 32000);
     spectrogram := fun _ _ _ _ _ _ => Ok (mk_ndarray2 2 3 (repeat F64.zero 6));
     convertHztoMel := fun x => x;
     ecurve := fun alpha beta _ _ _ =>
                 Ok (mk_ndarray2 3 2 ([#2000 + alpha; #2000 - beta]%fl ++ repeat F64.zero 4));
     geod_sphere := fun _ _ => Ok F64.zero |}.

(** The same, with a geodesic distance routine that fails. *)
Definition libs_geod_fails : Libs :=
  {| np_log10 := np_log10 libs;
     np_power := np_power libs;
     py_pow := py_pow libs;
     np_arange := np_arange libs;
     readWav := readWav libs;
     spectrogram := spectrogram libs;
     convertHztoMel := convertHztoMel libs;
     ecurve := ecurve libs;
     geod_sphere := fun _ _ => Raise (ExternalError "geod_sphere") |}.

(** The reduced grid of the end-to-end scenario: 2 x 2 x 1 x 2 x 2 points. *)
Definition sweep16 (signal_id freq_scale opt_metric : string)
  : M (Z * Z * string * float * float) :=
  sweep_on libs "tone.wav" signal_id "Standard" freq_scale opt_metric
           [32; 64] [#1 / #10; #1 / #4]%fl ["Hann"] [#0; #1 / #4]%fl [#0; #1 / #4]%fl.

End Demo.

(* ================================================================= *)
(** ** The other utility functions *)

(** Further external calls: [np.log2] and [imed.distance]. *)
Record MoreLibs : Type := {
  np_log2 : float -> float;
  imed_distance : ndarray2 -> ndarray2 -> result float
}.

(** [np.minimum] and [np.maximum] on scalars: a NaN operand is returned. *)
Definition np_minimum (a b : float) : float :=
  if F64.is_nan a then a else if F64.is_nan b then b else if (b <? a)%fl then b else a.

Definition np_maximum (a b : float) : float :=
  if F64.is_nan a then a else if F64.is_nan b then b else if (a <? b)%fl then b else a.

(** [np.amin] and [np.amax] over all the cells: an empty array has no minimum. *)
Definition np_amin (a : list float) : result float :=
  match a with
  | [] => Raise (ValueError "zero-size array to reduction operation minimum which has no identity")
  | x :: t => Ok (fold_left np_minimum t x)
  end.

Definition np_amax (a : list float) : result float :=
  match a with
  | [] => Raise (ValueError "zero-size array to reduction operation maximum which has no identity")
  | x :: t => Ok (fold_left np_maximum t x)
  end.

(** [np.ptp]: the maximum minus the minimum. *)
Definition np_ptp (a : list float) : result float :=
  rbind (np_amax a) (fun hi =>
  rbind (np_amin a) (fun lo =>
  Ok (hi - lo)%fl)).

Section MoreUtilities.

Variable L : Libs.
Variable ML : MoreLibs.

(** [Renyi_Entropy(A, order=3)]; [order] is a Python integer.  The factor
    [1 / (1 - order)] is evaluated first, by Python's division. *)
Definition Renyi_Entropy (A : ndarray2) (order : Z) : result float :=
  rbind (py_div #1 #(1 - order)) (fun c =>
  Ok (c * np_log2 ML (np_div (np_sum (map (fun x => np_power L x #order) (cells A)))
                             (np_sum (cells A))))%fl).

(** [(A - np.amin(A)) / np.ptp(A)], the first step of [IMED_distance]. *)
Definition rescale (A : ndarray2) : result ndarray2 :=
  rbind (np_amin (cells A)) (fun lo =>
  rbind (np_ptp (cells A)) (fun range =>
  Ok {| shape0 := shape0 A;
        shape1 := shape1 A;
        cells := map (fun x => np_div (x - lo)%fl range) (cells A) |})).

(** [IMED_distance(A, B)] *)
Definition IMED_distance (A B : ndarray2) : result float :=
  rbind (rescale A) (fun A2 =>
  rbind (rescale B) (fun B2 =>
  imed_distance ML A2 B2)).

End MoreUtilities.

(* ================================================================= *)
(** ** The script around the sweep (lines 287-348) *)

(** Exceptions of the script; the operating system's are opaque. *)
Inductive script_exn : Type :=
| TypeError (msg : string)
| OSError (msg : string).

Inductive script_result (A : Type) : Type :=
| Done (a : A)
| Fail (e : script_exn).
Arguments Done {A} a.
Arguments Fail {A} e.

(** [os.listdir], [os.path.lexists] / [os.path.exists] before the script has
    made anything, and [os.mkdir]. *)
Record OS : Type := {
  listdir : string -> script_result (list string);
  path_exists : string -> bool;
  mkdir : string -> script_result unit
}.

(** What the script prints. *)
Inductive line : Type :=
| StartingTest (test_id : pyval)
| AnalysingFolder (folder_path : string).

Record script_state : Type := mk_script_state {
  made : list string;                  (* the directories created, in order *)
  printed : list line
}.

Definition ScriptM (A : Type) : Type := script_state -> script_result A * script_state.

Definition s_ret {A} (a : A) : ScriptM A := fun st => (Done a, st).
Definition s_lift {A} (r : script_result A) : ScriptM A := fun st => (r, st).
Definition s_bind {A B} (m : ScriptM A) (k : A -> ScriptM B) : ScriptM B :=
  fun st => match m st with
            | (Done a, st') => k a st'
            | (Fail e, st') => (Fail e, st')
            end.

Fixpoint s_for_each {A} (xs : list A) (body : A -> ScriptM unit) : ScriptM unit :=
  match xs with
  | [] => s_ret tt
  | x :: rest => s_bind (body x) (fun _ => s_for_each rest body)
  end.

Definition s_print (l : line) : ScriptM unit :=
  fun st => (Done tt, mk_script_state (made st) (printed st ++ [l])).

(** [s + v] for a string [s]: only a string can be appended.  Python's message
    also names the type of [v] in brackets, which the model leaves out. *)
Definition str_add (s : string) (v : pyval) : script_result string :=
  match v with
  | VStr t => Done (s ++ t)%string
  | _ => Fail (TypeError "can only concatenate str to str")
  end.

Definition dataset_dir : string :=
  "/media/smb-vuwstocoissrin1.vuw.ac.nz-ECS_acoustic_03/Virginia_IF_experiment".
Definition main_results_dir : string :=
  "/am/state-opera/home1/listanvirg/Documents/IF_experiment_Results".

Definition spectrogram_types : list string := ["Standard"; "Reassigned"; "Multi-tapered"].
Definition freq_scales : list string := ["Linear"; "Mel Frequency"].
Definition spec_normalizations : list string :=
  ["Standard"; "Log"; "Box-Cox"; "Sigmoid"; "PCEN"].
Definition optimization_metrics : list string := ["L2"; "Iatsenko"; "Curve_registration"].

(** [Test_id=0], assigned once and never updated. *)
Definition Test_id : pyval := VInt 0.

(** [save_test_info]: the body is its docstring. *)
Definition save_test_info (file_path spec_type scale norm_type opt_metric : string) : unit := tt.

Section Script.

Variable os : OS.

(** [if not os.path.exists(d): os.mkdir(d)] *)
Definition make_if_missing (d : string) : ScriptM unit :=
  fun st =>
    if path_exists os d || existsb (String.eqb d) (made st) then (Done tt, st)
    else match mkdir os d with
         | Done _ => (Done tt, mk_script_state (made st ++ [d]) (printed st))
         | Fail e => (Fail e, st)
         end.

(** Lines 322-348, the body of the innermost loop.  The call of
    [find_optimal_spec_IF_parameters] passes six arguments to a function of
    seven parameters, which Python refuses before the function runs. *)
Definition run_test (spec_type scale norm_type opt_metric : string) : ScriptM unit :=
  s_bind (s_print (StartingTest Test_id)) (fun _ =>
  s_bind (s_lift (str_add (main_results_dir ++ "/Test")%string Test_id)) (fun test_result_dir =>
  s_bind (make_if_missing test_result_dir) (fun _ =>
  let test_info_file_path := (test_result_dir ++ "TFR_info.txt")%string in
  let _ := save_test_info test_info_file_path spec_type scale norm_type opt_metric in
  s_bind (s_lift (listdir os dataset_dir)) (fun signals =>
  s_for_each signals (fun signal_id =>
    let folder_path := (dataset_dir ++ "/" ++ signal_id)%string in
    s_bind (s_print (AnalysingFolder folder_path)) (fun _ =>
    let test_result_subfolder := (test_result_dir ++ "/" ++ signal_id)%string in
    s_bind (make_if_missing test_result_subfolder) (fun _ =>
    s_lift (Fail (TypeError
      "find_optimal_spec_IF_parameters() missing 1 required positional argument"))))))))).

(** The module-level code. *)
Definition script : ScriptM unit :=
  s_bind (s_lift (listdir os dataset_dir)) (fun signals_list =>
  s_for_each spectrogram_types (fun spec_type =>
    s_for_each freq_scales (fun scale =>
      s_for_each spec_normalizations (fun norm_type =>
        s_for_each optimization_metrics (fun opt_metric =>
          run_test spec_type scale norm_type opt_metric))))).

End Script.


(** Stand-ins for [np.log2] and [imed.distance], for the examples. *)
Definition demo_more_libs : MoreLibs :=
  {| np_log2 := fun x => x; imed_distance := fun _ _ => Ok F64.zero |}.

(* ================================================================= *)
(** ** Notions used in the proofs *)

(** NaN, or the infinity of sign [s]. *)
Definition nan_or_inf (s : bool) (x : float) : Prop :=
  x = S754_nan \/ x = S754_infinity s.

(** Every run of [m] relates the state it starts from to the state it ends
    in, whether it returns or raises. *)
Definition respects (R : sweep_state -> sweep_state -> Prop) {A} (m : M A) : Prop :=
  forall st, R st (snd (m st)).

(** The log, the running best and the best parameters are untouched. *)
Definition same_log (st st' : sweep_state) : Prop :=
  csv st' = csv st /\ opt st' = opt st /\ opt_param st' = opt_param st.

(** The running best is the minimum of the measures in the log. *)
Definition best_is_running_min (st : sweep_state) : Prop :=
  opt st = running_best (measures_logged (csv st)).

Definition keeps_running_min (st st' : sweep_state) : Prop :=
  best_is_running_min st -> best_is_running_min st'.

(** A data row as the sweep writes it. *)
Definition data_row (window_width incr spec_dim : Z) (measure2check : float) : row :=
  [CInt window_width; CInt incr; CEmpty; CEmpty; CEmpty; CInt spec_dim; CFloat measure2check].

Definition is_data_row (r : row) : Prop :=
  exists window_width incr spec_dim measure2check,
    r = data_row window_width incr spec_dim measure2check.

(** A run that returns has added [n] data rows to the log. *)
Definition adds_rows (n : nat) (m : M unit) : Prop :=
  forall st st', m st = (Ok tt, st') ->
    exists rows, csv st' = csv st ++ rows /\ length rows = n /\ Forall is_data_row rows.

(** The log has grown by at most [n] data rows. *)
Definition appends_at_most (n : nat) (st st' : sweep_state) : Prop :=
  exists rows, csv st' = csv st ++ rows /\ (length rows <= n)%nat /\ Forall is_data_row rows.

(** The dictionary of best parameters once a grid point has been the best. *)
Definition opt_param_of (window_width incr : Z) : list (string * pyval) :=
  [("window_lenght", VEmptyList); ("hop", VInt incr); ("window_type", VEmptyList);
   ("alpha", VEmptyList); ("beta", VEmptyList); ("win_len", VInt window_width)].

(** The best record agrees with the log: either nothing has been below plus
    infinity and the dictionary is the initial one, or the dictionary holds
    the window width and the hop of a logged row whose measure is the running
    best. *)
Definition best_record_matches_log (st : sweep_state) : Prop :=
  (opt st = F64.inf /\ opt_param st = opt_param_init) \/
  (opt st <> F64.inf /\
   exists window_width incr spec_dim,
     opt_param st = opt_param_of window_width incr /\
     In (data_row window_width incr spec_dim (opt st)) (csv st)).

Definition keeps_best_record (st st' : sweep_state) : Prop :=
  best_record_matches_log st -> best_record_matches_log st'.

(** [fstep] stays unbound. *)
Definition keeps_fstep_unbound (st st' : sweep_state) : Prop :=
  fstep_bound st = false -> fstep_bound st' = false.

(* ================================================================= *)
(** * Facts about binary64 arithmetic *)

Module FloatFacts.

Lemma compare_lt_trans (x y z : float) :
  SFcompare x y = Some Lt -> SFcompare y z = Some Lt -> SFcompare x z = Some Lt.
Proof.
  destruct x as [sx|sx| |sx mx ex], y as [sy|sy| |sy my ey], z as [sz|sz| |sz mz ez];
    simpl; try discriminate;
    try (destruct sx; try discriminate); try (destruct sy; try discriminate);
    try (destruct sz; try discriminate); try reflexivity;
    change (PosDef.Pos.compare_cont Eq) with Pos.compare;
    intros H1 H2; injection H1 as H1; injection H2 as H2; f_equal;
    destruct (Z.compare_spec ex ey), (Z.compare_spec ey ez), (Z.compare_spec ex ez);
    try discriminate; try lia; try reflexivity; subst;
    destruct (Pos.compare_spec mx my), (Pos.compare_spec my mz), (Pos.compare_spec mx mz);
    simpl in *; try discriminate; try lia; try reflexivity.
Qed.

Lemma compare_refl (x : float) : F64.is_nan x = false -> SFcompare x x = Some Eq.
Proof.
  destruct x as [s|s| |s m e]; simpl; try discriminate; intros _;
    destruct s; try reflexivity;
    change (PosDef.Pos.compare_cont Eq) with Pos.compare;
    rewrite Z.compare_refl, Pos.compare_refl; reflexivity.
Qed.

Lemma ltb_irrefl (x : float) : (x <? x)%fl = false.
Proof.
  unfold F64.ltb, SFltb. destruct (F64.is_nan x) eqn:E.
  - destruct x; try discriminate; reflexivity.
  - rewrite compare_refl by assumption. reflexivity.
Qed.

Lemma ltb_trans (x y z : float) :
  (x <? y)%fl = true -> (y <? z)%fl = true -> (x <? z)%fl = true.
Proof.
  unfold F64.ltb, SFltb. intros H1 H2.
  destruct (SFcompare x y) as [[]|] eqn:E1; try discriminate.
  destruct (SFcompare y z) as [[]|] eqn:E2; try discriminate.
  rewrite (compare_lt_trans _ _ _ E1 E2). reflexivity.
Qed.

Lemma ltb_leb (x y : float) : (x <? y)%fl = true -> (x <=? y)%fl = true.
Proof.
  unfold F64.ltb, F64.leb, SFltb, SFleb.
  destruct (SFcompare x y) as [[]|]; try discriminate; reflexivity.
Qed.

Lemma ltb_not_nan (x y : float) : (x <? y)%fl = true -> F64.is_nan x = false /\ F64.is_nan y = false.
Proof. destruct x, y; simpl; try discriminate; auto. Qed.

Lemma leb_refl (x : float) : F64.is_nan x = false -> (x <=? x)%fl = true.
Proof. intros H. unfold F64.leb, SFleb. rewrite compare_refl by assumption. reflexivity. Qed.

(** Division by a zero. *)
Lemma div_by_zero (x y : float) :
  F64.is_zero y = true ->
  (x / y)%fl = (if F64.is_nan x || F64.is_zero x then F64.nan
                else S754_infinity (xorb (match x with S754_infinity s | S754_finite s _ _ => s | _ => false end)
                                         (match y with S754_zero s => s | _ => false end))).
Proof. destruct y; try discriminate. intros _. destruct x; reflexivity. Qed.

Lemma sub_self (x : float) : F64.is_finite x = true -> (x - x)%fl = F64.zero.
Proof.
  destruct x as [s|s| |s m e]; try discriminate; intros _.
  - destruct s; reflexivity.
  - unfold F64.sub, SFsub. rewrite Z.sub_diag. reflexivity.
Qed.


(** *** Conversion of a positive integer

    Rounding a positive integer shifts its mantissa by fewer digits than it
    has: the result is a positive number or plus infinity, never a zero. *)

Lemma shr_1_m (mrs : shr_record) : 0 <= shr_m mrs -> shr_m (shr_1 mrs) = Z.div2 (shr_m mrs).
Proof.
  destruct mrs as [m r s]; simpl. destruct m as [|p|p]; try lia; intros _.
  - reflexivity.
  - destruct p; reflexivity.
Qed.

Lemma iter_shr_1_m (p : positive) : forall mrs,
  0 <= shr_m mrs -> shr_m (iter_pos shr_1 p mrs) = Z.shiftr (shr_m mrs) (Zpos p).
Proof.
  induction p as [p IH|p IH|]; intros mrs Hm; simpl.
  - assert (A : 0 <= shr_m (shr_1 mrs))
      by (rewrite shr_1_m, Z.div2_spec by assumption; apply Z.shiftr_nonneg; assumption).
    assert (B : 0 <= shr_m (iter_pos shr_1 p (shr_1 mrs)))
      by (rewrite IH by assumption; apply Z.shiftr_nonneg; assumption).
    rewrite (IH _ B), (IH _ A), shr_1_m, Z.div2_spec, !Z.shiftr_shiftr by lia.
    f_equal; lia.
  - assert (B : 0 <= shr_m (iter_pos shr_1 p mrs))
      by (rewrite IH by assumption; apply Z.shiftr_nonneg; assumption).
    rewrite (IH _ B), (IH _ Hm), Z.shiftr_shiftr by lia.
    f_equal; lia.
  - rewrite shr_1_m, Z.div2_spec by assumption. reflexivity.
Qed.

Lemma digits2_lower (m : positive) : 2 ^ Zpos (digits2_pos m) <= 2 * Zpos m.
Proof.
  induction m as [m IH|m IH|]; simpl digits2_pos; rewrite ?Pos2Z.inj_succ, ?Z.pow_succ_r by lia; lia.
Qed.

(** A shift by fewer digits than the mantissa has leaves it positive. *)
Lemma shr_fexp_pos (m : positive) (e : Z) (l : location) :
  F64.prec >= 1 -> emin F64.prec F64.emax <= e ->
  0 < shr_m (fst (shr_fexp F64.prec F64.emax (Zpos m) e l)) /\
  emin F64.prec F64.emax <= snd (shr_fexp F64.prec F64.emax (Zpos m) e l).
Proof.
  intros Hp He. unfold shr_fexp, shr, fexp. simpl Zdigits2.
  pose proof (digits2_lower m) as Hd.
  set (d := Zpos (digits2_pos m)) in *.
  assert (Hm : shr_m (shr_record_of_loc (Zpos m) l) = Zpos m) by (destruct l as [|[]]; reflexivity).
  destruct (Z.max (d + e - F64.prec) (emin F64.prec F64.emax) - e) as [|n|n] eqn:En;
    simpl fst; simpl snd; rewrite ?Hm; try (split; lia).
  rewrite iter_shr_1_m by (rewrite Hm; lia). rewrite Hm. split; [|lia].
  rewrite Z.shiftr_div_pow2 by lia.
  apply Z.div_str_pos. split; [apply Z.pow_pos_nonneg; lia|].
  assert (Zpos n <= d - 1) by lia.
  assert (2 ^ Zpos n <= 2 ^ (d - 1)) by (apply Z.pow_le_mono_r; lia).
  replace d with (Z.succ (d - 1)) in Hd by lia. rewrite Z.pow_succ_r in Hd by lia. lia.
Qed.

Lemma round_nearest_even_pos (m : Z) (l : location) : 0 < m -> 0 < round_nearest_even m l.
Proof. destruct l as [|[]]; simpl; try destruct (Z.even m); lia. Qed.

Lemma binary_round_aux_pos (s : bool) (m : positive) (e : Z) (l : location) :
  emin F64.prec F64.emax <= e ->
  exists m' e', binary_round_aux F64.prec F64.emax s (Zpos m) e l = S754_finite s m' e'
             \/ binary_round_aux F64.prec F64.emax s (Zpos m) e l = S754_infinity s.
Proof.
  intros He. unfold binary_round_aux.
  destruct (shr_fexp_pos m e l ltac:(unfold F64.prec; lia) He) as [H1 H2].
  destruct (shr_fexp F64.prec F64.emax (Zpos m) e l) as [mrs' e']. simpl in H1, H2.
  pose proof (round_nearest_even_pos _ (loc_of_shr_record mrs') H1) as H3.
  destruct (round_nearest_even (shr_m mrs') (loc_of_shr_record mrs')) as [|m1|m1]; try lia.
  destruct (shr_fexp_pos m1 e' loc_Exact ltac:(unfold F64.prec; lia) H2) as [H4 H5].
  destruct (shr_fexp F64.prec F64.emax (Zpos m1) e' loc_Exact) as [mrs'' e'']. simpl in H4, H5.
  destruct (shr_m mrs'') as [|m2|m2]; try lia.
  exists m2, e''. destruct (e'' <=? F64.emax - F64.prec); auto.
Qed.

Lemma of_Z_pos (p : positive) :
  exists m e, F64.of_Z (Zpos p) = S754_finite false m e \/ F64.of_Z (Zpos p) = S754_infinity false.
Proof.
  unfold F64.of_Z, binary_normalize, binary_round.
  destruct (shl_align p 0 (fexp F64.prec F64.emax (Zpos (digits2_pos p) + 0))) as [mz ez] eqn:E.
  apply binary_round_aux_pos.
  unfold shl_align in E.
  destruct (fexp F64.prec F64.emax (Zpos (digits2_pos p) + 0) - 0) eqn:E'; inversion E; subst;
    unfold emin, fexp, F64.prec, F64.emax in *; lia.
Qed.


Lemma div_zero_by_pos (p : positive) : (F64.zero / #(Zpos p))%fl = F64.zero.
Proof.
  destruct (of_Z_pos p) as (m & e & [H|H]); rewrite H; reflexivity.
Qed.

End FloatFacts.

Import FloatFacts.

(* ================================================================= *)
(** * Facts about the array operations *)

Section ArrayFacts.

Lemma length_map2 {A B C} (f : A -> B -> C) (l : list A) : forall l',
  length l = length l' -> length (map2 f l l') = length l.
Proof.
  induction l as [|x t IH]; intros [|y t'] H; simpl in *; try discriminate; auto.
Qed.

Lemma map2_combine {A B C} (f : A -> B -> C) (l : list A) : forall l',
  map2 f l l' = map (fun p => f (fst p) (snd p)) (combine l l').
Proof.
  induction l as [|x t IH]; intros [|y t']; simpl; try reflexivity.
  rewrite IH. reflexivity.
Qed.

(** Arrays of equal length are subtracted element by element. *)
Lemma np_sub_same_length (a b : ndarray) :
  length a = length b -> np_sub a b = Ok (map2 F64.sub a b).
Proof.
  intros H. unfold np_sub, broadcast. rewrite H, Nat.eqb_refl. reflexivity.
Qed.

Lemma map2_sub_self (s : ndarray) :
  Forall (fun x => F64.is_finite x = true) s ->
  map2 F64.sub s s = repeat F64.zero (length s).
Proof.
  induction 1 as [|x t Hx _ IH]; simpl; [reflexivity|].
  rewrite sub_self, IH by assumption. reflexivity.
Qed.

Lemma np_square_zeros (n : nat) : np_square (repeat F64.zero n) = repeat F64.zero n.
Proof. induction n; simpl; [|rewrite IHn]; reflexivity. Qed.

Lemma map2_mul_zeros (n : nat) :
  map2 F64.mul (repeat F64.zero n) (repeat F64.zero n) = repeat F64.zero n.
Proof. induction n; simpl; [|rewrite IHn]; reflexivity. Qed.

Lemma np_sum_zeros (n : nat) : np_sum (repeat F64.zero n) = F64.zero.
Proof.
  destruct n; simpl; [reflexivity|].
  induction n; simpl; auto.
Qed.

Lemma norm_zeros (n : nat) : norm (repeat F64.zero n) = F64.zero.
Proof. unfold norm, np_dot. rewrite map2_mul_zeros, np_sum_zeros. reflexivity. Qed.

(** The mean of a non-empty array of zeros. *)
Lemma np_mean_zeros (n : nat) : np_mean (repeat F64.zero (S n)) = F64.zero.
Proof.
  unfold np_mean, np_len, np_div. rewrite np_sum_zeros, repeat_length.
  simpl Z.of_nat. apply div_zero_by_pos.
Qed.

(** [dot(x, x)] is the sum of the squares. *)
Lemma np_dot_self (x : ndarray) : np_dot x x = sum_of_squares x.
Proof.
  unfold np_dot, np_sum, sum_of_squares. destruct x as [|x0 t]; simpl; [reflexivity|].
  generalize (x0 * x0)%fl. induction t as [|y t IH]; intros acc; simpl; auto.
Qed.

Lemma length_flat_map_const {A B} (f : A -> list B) (k : nat) (l : list A) :
  (forall x, length (f x) = k) -> length (flat_map f l) = (length l * k)%nat.
Proof.
  intros H. induction l as [|x l IH]; simpl; [reflexivity|].
  rewrite length_app, H, IH. reflexivity.
Qed.

Lemma transpose_well_shaped (A : ndarray2) : well_shaped (transpose A).
Proof.
  unfold well_shaped, transpose; simpl.
  rewrite length_flat_map_const with (k := shape0 A).
  - rewrite length_seq. reflexivity.
  - intros j. rewrite length_map, length_seq. reflexivity.
Qed.

Lemma length_np_linspace (a b : float) (n : nat) : length (np_linspace a b n) = n.
Proof.
  destruct n as [|[|n]]; try reflexivity.
  unfold np_linspace. rewrite length_app, length_map, length_seq. simpl. lia.
Qed.

(** *** NaN and the infinities in sums and means *)

Lemma fold_add_nan (l : ndarray) : fold_left F64.add l F64.nan = F64.nan.
Proof. induction l; simpl; auto. Qed.

Lemma fold_add_has_nan (l : ndarray) : forall acc,
  In F64.nan l -> fold_left F64.add l acc = F64.nan.
Proof.
  induction l as [|y l IH]; intros acc []; simpl.
  - subst y. replace (acc + F64.nan)%fl with F64.nan by (destruct acc; reflexivity).
    apply fold_add_nan.
  - auto.
Qed.

Lemma np_sum_has_nan (l : ndarray) : In F64.nan l -> np_sum l = F64.nan.
Proof.
  destruct l as [|x t]; intros []; simpl.
  - subst x. apply fold_add_nan.
  - apply fold_add_has_nan; assumption.
Qed.

Lemma add_nan_or_inf_l (s : bool) (a y : float) : nan_or_inf s a -> nan_or_inf s (a + y)%fl.
Proof.
  unfold nan_or_inf. intros [->| ->]; [left; reflexivity|].
  destruct y as [sy|sy| |sy m e]; simpl; auto; destruct s, sy; auto.
Qed.

Lemma add_inf_r (s : bool) (a : float) : nan_or_inf s (a + S754_infinity s)%fl.
Proof.
  unfold nan_or_inf. destruct a as [sa|sa| |sa m e]; simpl; auto; destruct sa, s; auto.
Qed.

Lemma fold_add_nan_or_inf (s : bool) (l : ndarray) : forall acc,
  nan_or_inf s acc -> nan_or_inf s (fold_left F64.add l acc).
Proof. induction l; simpl; auto using add_nan_or_inf_l. Qed.

Lemma fold_add_has_inf (s : bool) (l : ndarray) : forall acc,
  In (S754_infinity s) l -> nan_or_inf s (fold_left F64.add l acc).
Proof.
  induction l as [|y l IH]; intros acc []; simpl.
  - subst y. apply fold_add_nan_or_inf, add_inf_r.
  - auto.
Qed.

Lemma np_sum_has_inf (s : bool) (l : ndarray) :
  In (S754_infinity s) l -> nan_or_inf s (np_sum l).
Proof.
  destruct l as [|x t]; intros []; simpl.
  - subst x. apply fold_add_nan_or_inf. right; reflexivity.
  - apply fold_add_has_inf; assumption.
Qed.

Lemma np_len_cons (x : float) (t : ndarray) :
  np_len (x :: t) = #(Zpos (Pos.of_succ_nat (length t)))%fl.
Proof. reflexivity. Qed.

Lemma np_mean_has_inf (s : bool) (l : ndarray) :
  In (S754_infinity s) l -> nan_or_inf s (np_mean l).
Proof.
  intros H. pose proof (np_sum_has_inf s l H) as Hs.
  unfold np_mean, np_div. destruct l as [|x t]; [destruct H|].
  rewrite np_len_cons.
  destruct (of_Z_pos (Pos.of_succ_nat (length t))) as (m & e & [E|E]); rewrite E;
    destruct Hs as [-> | ->]; unfold nan_or_inf; simpl; auto; destruct s; auto.
Qed.

(** A sequence with a NaN or an infinite entry has no variance. *)
Lemma variance_nan (l : ndarray) (x : float) :
  In x l -> F64.is_finite x = false -> variance l = F64.nan.
Proof.
  intros Hin Hx. unfold variance.
  assert (Hd : (x - np_mean l)%fl = F64.nan).
  { destruct x as [s|s| |s m e]; try discriminate; [|reflexivity].
    destruct (np_mean_has_inf s l Hin) as [-> | ->]; [reflexivity|].
    destruct s; reflexivity. }
  assert (Hn : In F64.nan (np_square (np_sub_scalar l (np_mean l)))).
  { unfold np_square, np_sub_scalar. rewrite map_map.
    apply in_map_iff. exists x. rewrite Hd. split; [reflexivity|assumption]. }
  unfold np_mean at 1. rewrite (np_sum_has_nan _ Hn). reflexivity.
Qed.

Lemma positive_variance_finite (l : ndarray) :
  (F64.zero <? variance l)%fl = true ->
  l <> [] /\ Forall (fun x => F64.is_finite x = true) l.
Proof.
  intros H. split.
  - intros ->. vm_compute in H. discriminate.
  - apply Forall_forall. intros x Hin.
    destruct (F64.is_finite x) eqn:E; [reflexivity|].
    rewrite (variance_nan l x Hin E) in H. discriminate.
Qed.

Lemma div_zero_by_gt0 (y : float) : (F64.zero <? y)%fl = true -> (F64.zero / y)%fl = F64.zero.
Proof. destruct y as [s|s| |s m e]; try discriminate; destruct s; try discriminate; reflexivity. Qed.

End ArrayFacts.

(* ================================================================= *)
(** * Facts about the sweep *)

(** ** Relations every run respects *)

Section Respects.

Variable R : sweep_state -> sweep_state -> Prop.
Hypothesis R_refl : forall st, R st st.
Hypothesis R_trans : forall a b c, R a b -> R b c -> R a c.

Lemma respects_ret {A} (a : A) : respects R (ret a).
Proof. intros st. apply R_refl. Qed.

Lemma respects_raise {A} (e : exn) : respects R (@raise A e).
Proof. intros st. apply R_refl. Qed.

Lemma respects_lift {A} (r : result A) : respects R (lift r).
Proof. intros st. apply R_refl. Qed.

Lemma respects_gets {A} (f : sweep_state -> A) : respects R (gets f).
Proof. intros st. apply R_refl. Qed.

Lemma respects_modify (f : sweep_state -> sweep_state) :
  (forall st, R st (f st)) -> respects R (modify f).
Proof. intros H st. apply H. Qed.

Lemma respects_bind {A B} (m : M A) (k : A -> M B) :
  respects R m -> (forall a, respects R (k a)) -> respects R (bind m k).
Proof.
  intros Hm Hk st. unfold bind. specialize (Hm st).
  destruct (m st) as [[a|e] st1]; simpl in *; [|assumption].
  eapply R_trans; [eassumption|apply Hk].
Qed.

Lemma respects_for_each {A} (xs : list A) (body : A -> M unit) :
  (forall x, respects R (body x)) -> respects R (for_each xs body).
Proof.
  intros H. induction xs as [|x xs IH]; simpl.
  - apply respects_ret.
  - apply respects_bind; auto.
Qed.

End Respects.

Lemma same_log_refl (st : sweep_state) : same_log st st.
Proof. repeat split. Qed.

Lemma same_log_trans (a b c : sweep_state) : same_log a b -> same_log b c -> same_log a c.
Proof. unfold same_log. intros (-> & -> & ->) (-> & -> & ->). repeat split. Qed.

Lemma keeps_running_min_refl (st : sweep_state) : keeps_running_min st st.
Proof. intros H; exact H. Qed.

Lemma keeps_running_min_trans (a b c : sweep_state) :
  keeps_running_min a b -> keeps_running_min b c -> keeps_running_min a c.
Proof. unfold keeps_running_min. auto. Qed.

Lemma same_log_keeps_running_min (st st' : sweep_state) :
  same_log st st' -> keeps_running_min st st'.
Proof. intros (Hc & Ho & _) H. unfold best_is_running_min in *. rewrite Hc, Ho. exact H. Qed.

Lemma respects_weaken (R R' : sweep_state -> sweep_state -> Prop) {A} (m : M A) :
  (forall st st', R st st' -> R' st st') -> respects R m -> respects R' m.
Proof. intros H Hm st. apply H, Hm. Qed.

(** Steps that touch neither the log nor the running best. *)
Ltac same_log_step :=
  match goal with
  | |- respects _ (if ?b then _ else _) => destruct b
  | |- respects _ (match ?x with _ => _ end) => destruct x
  | |- respects _ (bind _ _) => apply (respects_bind same_log same_log_trans)
  | |- respects _ (ret _) => apply (respects_ret same_log same_log_refl)
  | |- respects _ (raise _) => apply (respects_raise same_log same_log_refl)
  | |- respects _ (lift _) => apply (respects_lift same_log same_log_refl)
  | |- respects _ (gets _) => apply (respects_gets same_log same_log_refl)
  | |- respects _ (modify _) => apply (respects_modify same_log); intros ?; repeat split
  | |- forall _, _ => intro
  end.

Section SweepFacts.

Variable L : Libs.
Variables signal_path signal_id spectrogram_type freq_scale opt_metric : string.

Lemma extract_if_same_log win_len hop window_type alpha beta :
  respects same_log
    (extract_if L signal_path spectrogram_type freq_scale win_len hop window_type alpha beta).
Proof. unfold extract_if, log_call. repeat same_log_step. Qed.

Lemma measure_point_same_log TFR tfsupp T :
  respects same_log (measure_point L signal_id opt_metric TFR tfsupp T).
Proof. unfold measure_point, log_call, print. repeat same_log_step. Qed.

Lemma evaluate_point_same_log win_len hop window_type alpha beta :
  respects same_log
    (evaluate_point L signal_path signal_id spectrogram_type freq_scale opt_metric
                    win_len hop window_type alpha beta).
Proof.
  unfold evaluate_point.
  apply (respects_bind same_log same_log_trans); [apply extract_if_same_log|].
  intros [[[[ww incr] TFR] tfsupp] T].
  apply (respects_bind same_log same_log_trans); [apply measure_point_same_log|].
  repeat same_log_step.
Qed.

Lemma del_locals_same_log : respects same_log del_locals.
Proof. unfold del_locals. repeat same_log_step. Qed.

Lemma sweep_return_same_log : respects same_log sweep_return.
Proof. unfold sweep_return. repeat same_log_step. Qed.

End SweepFacts.

(** ** The row of the log and the running best *)

(** The row [DictWriter] writes for a grid point. *)
Lemma writerow_data_row (window_width incr spec_dim : Z) (measure2check : float) :
  DictWriter_writerow fieldnames
    [("window_width", CInt window_width); ("incr", CInt incr);
     ("spec dim", CInt spec_dim); ("measure", CFloat measure2check)]
  = Ok [CInt window_width; CInt incr; CEmpty; CEmpty; CEmpty; CInt spec_dim;
        CFloat measure2check].
Proof. reflexivity. Qed.

(** What [log_and_update] does to the state. *)
Lemma log_and_update_spec (window_width incr spec_dim : Z) (m : float) (st : sweep_state) :
  let r := [CInt window_width; CInt incr; CEmpty; CEmpty; CEmpty; CInt spec_dim; CFloat m] in
  log_and_update window_width incr spec_dim m st =
    (Ok tt,
     if (m <? opt st)%fl then
       set_opt_param (dict_set "hop" (VInt incr)
                        (dict_set "win_len" (VInt window_width) (opt_param st)))
         (set_opt m (set_csv (csv st ++ [r]) st))
     else set_csv (csv st ++ [r]) st).
Proof.
  unfold log_and_update, bind, lift, modify, gets. rewrite writerow_data_row. simpl.
  destruct (m <? opt st)%fl; reflexivity.
Qed.

Lemma measures_logged_app (l l' : list row) :
  measures_logged (l ++ l') = measures_logged l ++ measures_logged l'.
Proof. apply flat_map_app. Qed.

Lemma running_best_snoc (ms : list float) (m : float) :
  running_best (ms ++ [m]) = if (m <? running_best ms)%fl then m else running_best ms.
Proof. unfold running_best. rewrite fold_left_app. reflexivity. Qed.

Lemma log_and_update_keeps_running_min (window_width incr spec_dim : Z) (m : float) :
  respects keeps_running_min (log_and_update window_width incr spec_dim m).
Proof.
  intros st Inv. rewrite log_and_update_spec. unfold best_is_running_min in *.
  cbv zeta. cbn [snd].
  assert (E : forall c, running_best (measures_logged
                (c ++ [[CInt window_width; CInt incr; CEmpty; CEmpty; CEmpty;
                        CInt spec_dim; CFloat m]]))
              = if (m <? running_best (measures_logged c))%fl then m
                else running_best (measures_logged c)).
  { intros c. rewrite measures_logged_app. apply running_best_snoc. }
  destruct (m <? opt st)%fl eqn:Hlt; cbn [csv opt set_opt_param set_opt set_csv];
    rewrite E, <- Inv, Hlt; reflexivity.
Qed.

(** The running best never is NaN, no logged measure is below it, and it is
    plus infinity or one of the logged measures. *)
Lemma running_best_is_minimum (ms : list float) :
  F64.is_nan (running_best ms) = false /\
  (forall v, In v ms -> (v <? running_best ms)%fl = false) /\
  (running_best ms = F64.inf \/ In (running_best ms) ms).
Proof.
  induction ms as [|m ms IH] using rev_ind.
  - repeat split; auto. intros v [].
  - destruct IH as (Hnan & Hlow & Hmem). rewrite running_best_snoc.
    destruct (m <? running_best ms)%fl eqn:E.
    + split; [apply (ltb_not_nan _ _ E)|]. split.
      * intros v Hv. apply in_app_or in Hv. destruct Hv as [Hv|[<-|[]]].
        -- destruct (v <? m)%fl eqn:E'; [|reflexivity].
           rewrite <- (Hlow v Hv). symmetry. eapply ltb_trans; eassumption.
        -- apply ltb_irrefl.
      * right. apply in_or_app. right. left. reflexivity.
    + split; [assumption|]. split.
      * intros v Hv. apply in_app_or in Hv. destruct Hv as [Hv|[<-|[]]]; auto.
      * destruct Hmem as [->|Hin]; [left; reflexivity|right; apply in_or_app; auto].
Qed.

Lemma running_best_non_increasing (ms : list float) (m : float) :
  (running_best (ms ++ [m]) <=? running_best ms)%fl = true.
Proof.
  rewrite running_best_snoc. destruct (m <? running_best ms)%fl eqn:E.
  - apply ltb_leb, E.
  - apply leb_refl, running_best_is_minimum.
Qed.

Section SweepInvariant.

Variable L : Libs.
Variables signal_path signal_id spectrogram_type freq_scale opt_metric : string.

Lemma grid_point_keeps_running_min win_len hop window_type alpha beta :
  respects keeps_running_min
    (grid_point L signal_path signal_id spectrogram_type freq_scale opt_metric
                win_len hop window_type alpha beta).
Proof.
  unfold grid_point.
  apply (respects_bind keeps_running_min keeps_running_min_trans).
  - eapply respects_weaken; [apply same_log_keeps_running_min|].
    apply evaluate_point_same_log.
  - intros [[[ww incr] dim] m]. apply log_and_update_keeps_running_min.
Qed.

Lemma sweep_loops_keeps_running_min win hop_perc win_type alpha_list beta_list :
  respects keeps_running_min
    (sweep_loops L signal_path signal_id spectrogram_type freq_scale opt_metric
                 win hop_perc win_type alpha_list beta_list).
Proof.
  unfold sweep_loops.
  pose proof (fun A => @respects_for_each keeps_running_min keeps_running_min_refl
                          keeps_running_min_trans A) as Hfor.
  apply Hfor; intros win_len. apply Hfor; intros hop.
  apply (respects_bind keeps_running_min keeps_running_min_trans).
  - apply Hfor; intros window_type. apply Hfor; intros alpha. apply Hfor; intros beta.
    apply grid_point_keeps_running_min.
  - intros _. eapply respects_weaken; [apply same_log_keeps_running_min|].
    apply del_locals_same_log.
Qed.

Lemma sweep_init_spec (st : sweep_state) :
  sweep_init st =
    (Ok tt, mk_state [header] (stdout st) (calls st) F64.inf opt_param_init false false).
Proof. reflexivity. Qed.

(** After any run of the sweep, complete or not, the running best is the
    minimum of the measures in the log. *)
Lemma sweep_on_running_min win hop_perc win_type alpha_list beta_list (st : sweep_state) :
  best_is_running_min
    (snd (sweep_on L signal_path signal_id spectrogram_type freq_scale opt_metric
                   win hop_perc win_type alpha_list beta_list st)).
Proof.
  unfold sweep_on, bind at 1. rewrite sweep_init_spec.
  set (st0 := mk_state _ _ _ _ _ _ _).
  assert (H0 : best_is_running_min st0) by reflexivity.
  revert H0. generalize st0. clear st st0.
  change (respects keeps_running_min
    (sweep_loops L signal_path signal_id spectrogram_type freq_scale opt_metric
                 win hop_perc win_type alpha_list beta_list ;; sweep_return)).
  apply (respects_bind keeps_running_min keeps_running_min_trans).
  - apply sweep_loops_keeps_running_min.
  - intros _. eapply respects_weaken; [apply same_log_keeps_running_min|].
    apply sweep_return_same_log.
Qed.

End SweepInvariant.

(** ** Control flow *)

Lemma bind_raises {A B} (m : M A) (k : A -> M B) (st st' : sweep_state) (e : exn) :
  m st = (Raise e, st') -> bind m k st = (Raise e, st').
Proof. intros H. unfold bind. rewrite H. reflexivity. Qed.

Lemma bind_returns {A B} (m : M A) (k : A -> M B) (st st' : sweep_state) (a : A) :
  m st = (Ok a, st') -> bind m k st = k a st'.
Proof. intros H. unfold bind. rewrite H. reflexivity. Qed.

(** An exception in the body leaves the loop. *)
Lemma for_each_raises {A} (x : A) (xs : list A) (body : A -> M unit)
      (st st' : sweep_state) (e : exn) :
  body x st = (Raise e, st') -> for_each (x :: xs) body st = (Raise e, st').
Proof. intros H. simpl. apply bind_raises, H. Qed.

(** A body that returns is followed by the rest of the loop. *)
Lemma for_each_continues {A} (x : A) (xs : list A) (body : A -> M unit)
      (st st' : sweep_state) :
  body x st = (Ok tt, st') -> for_each (x :: xs) body st = for_each xs body st'.
Proof. intros H. exact (bind_returns (body x) (fun _ => for_each xs body) st st' tt H). Qed.

Lemma bind_inv {A B} (m : M A) (k : A -> M B) (st st' : sweep_state) (b : B) :
  bind m k st = (Ok b, st') -> exists a st1, m st = (Ok a, st1) /\ k a st1 = (Ok b, st').
Proof.
  unfold bind. destruct (m st) as [[a|e] st1]; [eauto|discriminate].
Qed.

(** ** Rows added by the loops *)

Lemma adds_rows_bind (n n' : nat) (m k : M unit) :
  adds_rows n m -> adds_rows n' k -> adds_rows (n + n') (m ;; k).
Proof.
  intros Hm Hk st st' H. apply bind_inv in H. destruct H as ([] & st1 & H1 & H2).
  destruct (Hm _ _ H1) as (r1 & E1 & L1 & F1), (Hk _ _ H2) as (r2 & E2 & L2 & F2).
  exists (r1 ++ r2). rewrite E2, E1, <- app_assoc, length_app, L1, L2.
  repeat split. apply Forall_app; auto.
Qed.

Lemma adds_rows_for_each {A} (n : nat) (xs : list A) (body : A -> M unit) :
  (forall x, adds_rows n (body x)) -> adds_rows (length xs * n) (for_each xs body).
Proof.
  intros H. induction xs as [|x xs IH]; simpl.
  - intros st st' E. inversion E; subst. exists []. rewrite app_nil_r. auto.
  - apply adds_rows_bind; auto.
Qed.

Lemma adds_rows_same_log (m : M unit) : respects same_log m -> adds_rows 0 m.
Proof.
  intros H st st' E. destruct (H st) as (Hc & _). rewrite E in Hc. simpl in Hc.
  exists []. rewrite app_nil_r. auto.
Qed.

Section Rows.

Variable L : Libs.
Variables signal_path signal_id spectrogram_type freq_scale opt_metric : string.

Lemma grid_point_adds_one_row win_len hop window_type alpha beta :
  adds_rows 1 (grid_point L signal_path signal_id spectrogram_type freq_scale opt_metric
                          win_len hop window_type alpha beta).
Proof.
  intros st st' H. unfold grid_point in H. apply bind_inv in H.
  destruct H as ([[[ww incr] dim] m] & st1 & H1 & H2).
  pose proof (evaluate_point_same_log L signal_path signal_id spectrogram_type freq_scale
                opt_metric win_len hop window_type alpha beta st) as (Hc & _).
  rewrite H1 in Hc. simpl in Hc.
  rewrite log_and_update_spec in H2. inversion H2 as [E]. clear H2 E.
  exists [data_row ww incr dim m]. rewrite <- Hc.
  split; [destruct (m <? opt st1)%fl; reflexivity|].
  split; [reflexivity|]. constructor; [|constructor]. exists ww, incr, dim, m. reflexivity.
Qed.

(** Loops that run to their end have added one data row for each grid
    point, after what the log held before. *)
Lemma sweep_loops_adds_rows win hop_perc win_type alpha_list beta_list :
  adds_rows (length win * (length hop_perc *
               (length win_type * (length alpha_list * (length beta_list * 1)) + 0)))
    (sweep_loops L signal_path signal_id spectrogram_type freq_scale opt_metric
                 win hop_perc win_type alpha_list beta_list).
Proof.
  unfold sweep_loops.
  apply adds_rows_for_each; intros win_len. apply adds_rows_for_each; intros hop.
  apply adds_rows_bind.
  - apply adds_rows_for_each; intros window_type.
    apply adds_rows_for_each; intros alpha. apply adds_rows_for_each; intros beta.
    apply grid_point_adds_one_row.
  - apply adds_rows_same_log, del_locals_same_log.
Qed.

End Rows.

(** ** The last lines of the function *)

Lemma sweep_return_raises (st : sweep_state) :
  exists e, sweep_return st = (Raise e, st).
Proof.
  unfold sweep_return, bind, gets, lift, raise.
  destruct (subscript (opt_param st) "win_len"); [|eauto].
  destruct (subscript (opt_param st) "hop"); eauto.
Qed.

(** ** Unknown signal classes *)

Lemma set_if_fun_unrecognized (L : Libs) (signal_id : string) (T : float) :
  recognized signal_id = false ->
  set_if_fun L signal_id T =
    (["ERROR SIGNAL ID NOT CONSISTENT WITH THE IF WE CAN HANDLE"],
     Raise (UnboundLocalError "if_fun")).
Proof.
  unfold recognized, existsb. intros H.
  repeat (apply orb_false_elim in H; destruct H as [? H]).
  unfold set_if_fun.
  repeat match goal with E : (_ =? _)%string = false |- _ => rewrite E; clear E end.
  reflexivity.
Qed.

(* ================================================================= *)
(** * The metrics *)


(** Sequences of different lengths cannot be subtracted: the expression raises
    and the [except] branch returns NaN. *)
Example Iatsenko_style_mismatched_lengths :
  Iatsenko_style [#1; #2; #3]%fl [#1; #2]%fl = F64.nan.
Proof. reflexivity. Qed.

(** C3. The claim: on equal-length sequences whose reference has zero
    variance, the Iatsenko metric returns NaN.  The code: for the reference
    [2000, 2000] and the curve [1999, 2001] the variance of the reference is
    zero, the mean squared difference is 1, and [Iatsenko_style] returns plus
    infinity; the [except] branch that would give NaN is not taken. *)
Theorem Iatsenko_style_zero_variance_gives_infinity :
  let s1 := [#2000; #2000]%fl in
  let s2 := [#1999; #2001]%fl in
  length s1 = length s2 /\
  variance s1 = F64.zero /\
  Iatsenko_style s1 s2 = F64.inf /\
  F64.is_nan (Iatsenko_style s1 s2) = false.
Proof. vm_compute. repeat split. Qed.






(** C10. With an empty noise array [Signal_to_noise_Ratio] returns the integer
    0, whatever the signal, without computing anything. *)
Theorem Signal_to_noise_Ratio_no_noise (L : Libs) (signal : ndarray) :
  Signal_to_noise_Ratio L signal [] = VInt 0.
Proof. reflexivity. Qed.

(* ================================================================= *)
(** * The grid search *)

(** C1. The claim: when the sweep completes, the function returns the grid
    point of minimal measure.  The code: the function never returns.  After the
    loops it reads [opt_param["win_len"]] (a [KeyError] when no measure was
    below plus infinity) and then evaluates [window_length_opt], a name
    assigned nowhere: every call ends in an exception. *)
Theorem find_optimal_spec_IF_parameters_never_returns
    (L : Libs) (signal_path signal_id spectrogram_type freq_scale opt_metric : string)
    (st : sweep_state) :
  exists e,
    fst (find_optimal_spec_IF_parameters L signal_path signal_id spectrogram_type
                                         freq_scale opt_metric st) = Raise e.
Proof.
  unfold find_optimal_spec_IF_parameters, sweep_on.
  unfold bind at 1. rewrite sweep_init_spec.
  unfold bind.
  match goal with |- context [sweep_loops ?a ?b ?c ?d ?e ?f ?g ?h ?i ?j ?k ?s] =>
    destruct (sweep_loops a b c d e f g h i j k s) as [[[]|e0] st1] end.
  - destruct (sweep_return_raises st1) as (e & E). exists e. rewrite E. reflexivity.
  - exists e0. reflexivity.
Qed.

(** The end-to-end scenario on the reduced grid, with a pure tone, a linear
    frequency scale and the L2 measure: 16 rows are logged after the header,
    the best record holds the window width and the hop of the first grid
    point, and the call ends in [NameError]. *)
Example sweep16_pure_tone_L2 :
  let run := Demo.sweep16 "pure_tone" "Linear" "L2" fresh in
  fst run = Raise (NameError "window_length_opt") /\
  length (csv (snd run)) = 17%nat /\
  hd [] (csv (snd run)) = header /\
  nth 1 (csv (snd run)) [] = data_row 32 3 6 F64.zero /\
  opt (snd run) = F64.zero /\
  opt_param (snd run) =
    [("window_lenght", VEmptyList); ("hop", VInt 3); ("window_type", VEmptyList);
     ("alpha", VEmptyList); ("beta", VEmptyList); ("win_len", VInt 32)].
Proof. vm_compute. repeat split. Qed.

(** A pure tone under the Iatsenko measure: every measure is NaN or plus
    infinity, none is below the initial best, "win_len" never enters the
    dictionary and the call ends in [KeyError]. *)
Example sweep16_pure_tone_Iatsenko :
  let run := Demo.sweep16 "pure_tone" "Linear" "Iatsenko" fresh in
  fst run = Raise (KeyError "win_len") /\
  length (csv (snd run)) = 17%nat /\
  opt (snd run) = F64.inf /\
  Forall (fun m => m = F64.nan \/ m = F64.inf) (measures_logged (csv (snd run))).
Proof.
  vm_compute. repeat split.
  repeat (apply Forall_cons; [(left; reflexivity) || (right; reflexivity)|]).
  apply Forall_nil.
Qed.

(** With a frequency scale other than "Linear", [fstep] is never bound and
    [del] raises at the end of the first pass of the loop over [hop_perc]. *)
Example sweep16_mel_scale :
  let run := Demo.sweep16 "pure_tone" "Mel Frequency" "L2" fresh in
  fst run = Raise (UnboundLocalError "fstep") /\
  length (csv (snd run)) = 5%nat.
Proof. vm_compute. repeat split. Qed.

(** C4. The claim: each data row records the window width, the hop, the window
    type, alpha, beta, the spectrogram dimension and the measure.  The code:
    the header names the seven columns, and the dictionary given to [writerow]
    has no entry for "window type", "alpha" and "beta": those three fields of
    every data row are empty. *)
Theorem data_rows_leave_window_type_alpha_beta_empty
    (window_width incr spec_dim : Z) (measure2check : float) (st : sweep_state) :
  header = [CStr "window_width"; CStr "incr"; CStr "window type"; CStr "alpha";
            CStr "beta"; CStr "spec dim"; CStr "measure"] /\
  csv (snd (log_and_update window_width incr spec_dim measure2check st))
    = csv st ++ [[CInt window_width; CInt incr; CEmpty; CEmpty; CEmpty;
                  CInt spec_dim; CFloat measure2check]].
Proof.
  split; [reflexivity|]. rewrite log_and_update_spec. cbv zeta. cbn [snd].
  destruct (measure2check <? opt st)%fl; reflexivity.
Qed.

(** X13. What does hold of the log: when the loops run to their end, the log is
    the header followed by one data row for each grid point. *)
Lemma completed_loops_log
    (L : Libs) (signal_path signal_id spectrogram_type freq_scale opt_metric : string)
    (win : list Z) (hop_perc : list float) (win_type : list string)
    (alpha_list beta_list : list float) (st st' : sweep_state) :
  (sweep_init ;;
   sweep_loops L signal_path signal_id spectrogram_type freq_scale opt_metric
               win hop_perc win_type alpha_list beta_list) st = (Ok tt, st') ->
  exists rows,
    csv st' = header :: rows /\
    length rows = (length win * length hop_perc * length win_type
                   * length alpha_list * length beta_list)%nat /\
    Forall is_data_row rows.
Proof.
  intros H. apply bind_inv in H. destruct H as ([] & st1 & H1 & H2).
  rewrite sweep_init_spec in H1. inversion H1; subst st1. clear H1.
  apply sweep_loops_adds_rows in H2. destruct H2 as (rows & E & Hlen & Hrows).
  exists rows. split; [exact E|]. split; [|exact Hrows]. rewrite Hlen. nia.
Qed.


(** ** Unknown signal class *)

(** The hop of the first grid point: [int(32 * 0.1)]. *)
Lemma first_incr : py_int (#32 * (#1 / #10))%fl = Ok 3.
Proof. vm_compute. reflexivity. Qed.

(** When [extract_if] returns, it has made its three calls and printed
    nothing. *)
Lemma extract_if_returns (L : Libs) (signal_path spectrogram_type freq_scale : string)
      (win_len : Z) (hop : float) (window_type : string) (alpha beta : float)
      (st st' : sweep_state) (ww incr : Z) (TFR tfsupp : ndarray2) (T : float) :
  extract_if L signal_path spectrogram_type freq_scale win_len hop window_type alpha beta st
    = (Ok (ww, incr, TFR, tfsupp, T), st') ->
  py_int (#win_len * hop)%fl = Ok incr /\
  same_log st st' /\
  stdout st' = stdout st /\
  calls st' = calls st ++ [CallReadWav signal_path;
                           CallSpectrogram win_len incr window_type;
                           CallEcurve alpha beta].
Proof.
  unfold extract_if, bind, lift, log_call, modify, ret.
  destruct (py_int (#win_len * hop)%fl) as [i|]; [|discriminate].
  destruct (readWav L signal_path) as [[fs fileLength]|]; [|discriminate].
  destruct (spectrogram L signal_path win_len i window_type spectrogram_type freq_scale)
    as [TFR0|]; [|discriminate].
  destruct (freq_scale =? "Linear")%string.
  - destruct (py_div (#fs / #2)%fl #(Z.of_nat (shape0 (transpose TFR0)))) as [fstep|];
      [|discriminate].
    destruct (ecurve L alpha beta (transpose TFR0) _ (fs, win_len)) as [tf|]; [|discriminate].
    destruct (py_div #fileLength #fs) as [T0|]; [|discriminate].
    intros H. inversion H; subst. cbn. rewrite <- !app_assoc. repeat split.
  - destruct (ecurve L alpha beta (transpose TFR0) _ (fs, win_len)) as [tf|]; [|discriminate].
    destruct (py_div #fileLength #fs) as [T0|]; [|discriminate].
    intros H. inversion H; subst. cbn. rewrite <- !app_assoc. repeat split.
Qed.

(** C2, as the claim states it, fails: with the class "unknown_class" the run
    fails only after the recording has been read and the spectrogram and the
    curve of the first grid point have been computed. *)
Lemma unknown_class_fails_after_first_extraction :
  let run := find_optimal_spec_IF_parameters
               Demo.libs "tone.wav" "unknown_class" "Standard" "Linear" "L2" fresh in
  fst run = Raise (UnboundLocalError "if_fun") /\
  calls (snd run) = [CallReadWav "tone.wav"; CallSpectrogram 32 3 "Hann"; CallEcurve #0 #0]%fl /\
  calls (snd run) <> [].
Proof. vm_compute. repeat split. discriminate. Qed.

(** C2, amended.  With a signal class outside the five recognized ones, and a
    first grid point whose recording, spectrogram and curve are obtained, the
    run prints the diagnostic of [set_if_fun] and fails on the unassigned
    [if_fun] while it processes the first grid point: the three calls of that
    point have been made, its measure has not been computed, the log holds its
    header only and the running best is untouched. *)
Theorem unknown_class_fails_in_first_grid_point
    (L : Libs) (signal_path signal_id spectrogram_type freq_scale opt_metric : string)
    (st st1 : sweep_state) (ww incr : Z) (TFR tfsupp : ndarray2) (T : float) :
  recognized signal_id = false ->
  extract_if L signal_path spectrogram_type freq_scale 32 (#1 / #10)%fl "Hann" #0%fl #0%fl
             (snd (sweep_init st)) = (Ok (ww, incr, TFR, tfsupp, T), st1) ->
  exists st',
    find_optimal_spec_IF_parameters L signal_path signal_id spectrogram_type freq_scale
                                    opt_metric st
      = (Raise (UnboundLocalError "if_fun"), st') /\
    stdout st' = stdout st ++ ["ERROR SIGNAL ID NOT CONSISTENT WITH THE IF WE CAN HANDLE"] /\
    calls st' = calls st ++ [CallReadWav signal_path; CallSpectrogram 32 3 "Hann";
                             CallEcurve #0 #0]%fl /\
    csv st' = [header] /\
    opt st' = F64.inf /\
    opt_param st' = opt_param_init.
Proof.
  intros Hid Hx.
  pose proof Hx as Hx'. apply extract_if_returns in Hx'.
  destruct Hx' as (Hincr & (Hc & Ho & Hp) & Hout & Hcalls).
  rewrite first_incr in Hincr. injection Hincr as <-.
  rewrite sweep_init_spec in Hx, Hc, Ho, Hp, Hout, Hcalls. cbn [snd] in *.
  cbn [csv opt opt_param stdout calls] in Hc, Ho, Hp, Hout, Hcalls.
  exists (set_stdout (stdout st1 ++ ["ERROR SIGNAL ID NOT CONSISTENT WITH THE IF WE CAN HANDLE"]) st1).
  split; [|cbn; rewrite Hout; auto].
  unfold find_optimal_spec_IF_parameters, sweep_on.
  unfold bind at 1. rewrite sweep_init_spec.
  apply bind_raises.
  unfold sweep_loops, win, hop_perc, win_type, alpha_list, beta_list.
  apply for_each_raises, for_each_raises, bind_raises.
  apply for_each_raises, for_each_raises, for_each_raises.
  unfold grid_point, evaluate_point.
  apply bind_raises. rewrite (bind_returns _ _ _ _ _ Hx).
  apply bind_raises. unfold measure_point.
  rewrite (set_if_fun_unrecognized L signal_id T Hid). reflexivity.
Qed.

Lemma unknown_class_fails_in_first_grid_point_witness :
  exists st',
    find_optimal_spec_IF_parameters Demo.libs "tone.wav" "unknown_class" "Standard" "Linear"
                                    "L2" fresh
      = (Raise (UnboundLocalError "if_fun"), st') /\
    stdout st' = stdout fresh ++ ["ERROR SIGNAL ID NOT CONSISTENT WITH THE IF WE CAN HANDLE"] /\
    calls st' = calls fresh ++ [CallReadWav "tone.wav"; CallSpectrogram 32 3 "Hann";
                                CallEcurve #0 #0]%fl /\
    csv st' = [header] /\
    opt st' = F64.inf /\
    opt_param st' = opt_param_init.
Proof.
  eapply (unknown_class_fails_in_first_grid_point
            Demo.libs "tone.wav" "unknown_class" "Standard" "Linear" "L2" fresh).
  - reflexivity.
  - vm_compute. reflexivity.
Defined.

(** ** Grid points without a usable measure *)

Lemma ltb_nan_l (x : float) : (F64.nan <? x)%fl = false.
Proof. reflexivity. Qed.




(* ================================================================= *)
(** * The ground truth *)

Lemma positive_not_zero (T : float) : (F64.zero <? T)%fl = true -> F64.is_zero T = false.
Proof. destruct T; try discriminate; reflexivity. Qed.

(** [omega_0 + c * 0] is [omega_0] for a finite slope [c]. *)
Lemma linear_at_zero (omega_0 : Z) (c : float) :
  F64.is_finite c = true -> F64.is_zero #omega_0 = false ->
  (#omega_0 + c * #0)%fl = (#omega_0)%fl.
Proof.
  intros Hc H0.
  assert (E : exists s, (c * #0)%fl = S754_zero s)
    by (destruct c as [s|s| |s m e]; try discriminate; eexists; reflexivity).
  destruct E as (s & ->).
  destruct (#omega_0)%fl as [s0|s0| |s0 m0 e0]; try discriminate; reflexivity.
Qed.

(** [set_if_fun] on the four chirps. *)
Lemma set_if_fun_exponential_downchirp (L : Libs) (T : float) :
  snd (set_if_fun L "exponential_downchirp" T) =
    rbind (py_div #1%fl T) (fun e =>
    rbind (py_pow L (#500 / #2000)%fl e) (fun alpha =>
    Ok (fun x => #2000 * np_power L alpha x)%fl)).
Proof. reflexivity. Qed.

Lemma set_if_fun_exponential_upchirp (L : Libs) (T : float) :
  snd (set_if_fun L "exponential_upchirp" T) =
    rbind (py_div #1%fl T) (fun e =>
    rbind (py_pow L (#2000 / #500)%fl e) (fun alpha =>
    Ok (fun x => #500 * np_power L alpha x)%fl)).
Proof. reflexivity. Qed.

Lemma set_if_fun_linear_downchirp (L : Libs) (T : float) :
  snd (set_if_fun L "linear_downchirp" T) =
    rbind (py_div #(-1500)%fl T) (fun c => Ok (fun x => #2000 + c * x)%fl).
Proof. reflexivity. Qed.

Lemma set_if_fun_linear_upchirp (L : Libs) (T : float) :
  snd (set_if_fun L "linear_upchirp" T) =
    rbind (py_div #1500%fl T) (fun c => Ok (fun x => #500 + c * x)%fl).
Proof. reflexivity. Qed.


(** For a duration of 2 seconds both linear chirps end exactly where they
    should. *)
Example linear_chirps_exact_for_two_seconds :
  (exists f, snd (set_if_fun Demo.libs "linear_downchirp" #2%fl) = Ok f /\
             f #0%fl = #2000%fl /\ f #2%fl = #500%fl) /\
  (exists f, snd (set_if_fun Demo.libs "linear_upchirp" #2%fl) = Ok f /\
             f #0%fl = #500%fl /\ f #2%fl = #2000%fl).
Proof.
  split; eexists; (split; [reflexivity|]); split; vm_compute; reflexivity.
Qed.



(* ================================================================= *)
(** * Further properties of the utility functions *)

(** ** [Iatsenko_style] *)

(** X1. [Iatsenko_style] returns NaN, and raises nothing, when the two
    sequences cannot be subtracted (different lengths, none of them 1: the
    [except] branch), and when the reference is empty (the mean of an empty
    array). *)
Theorem Iatsenko_style_nan_on_unusable_input (s1 s2 : ndarray) :
  (length s1 <> length s2 -> length s1 <> 1%nat -> length s2 <> 1%nat ->
   Iatsenko_style s1 s2 = F64.nan) /\
  (s1 = [] -> Iatsenko_style s1 s2 = F64.nan).
Proof.
  split.
  - intros Hne H1 H2. unfold Iatsenko_style, np_sub, broadcast.
    apply Nat.eqb_neq in Hne. rewrite Hne.
    destruct s1 as [|x [|x' t]], s2 as [|y [|y' t']]; simpl in *; try reflexivity; congruence.
  - intros ->. unfold Iatsenko_style, np_sub, broadcast.
    destruct s2 as [|y [|y' t']]; reflexivity.
Qed.

Lemma Iatsenko_style_nan_on_unusable_input_witness :
  Iatsenko_style [#1; #2; #3]%fl [#1; #2]%fl = F64.nan /\
  Iatsenko_style [] [#1; #2]%fl = F64.nan.
Proof.
  split.
  - apply (proj1 (Iatsenko_style_nan_on_unusable_input [#1; #2; #3]%fl [#1; #2]%fl));
      discriminate.
  - apply (proj2 (Iatsenko_style_nan_on_unusable_input [] [#1; #2]%fl)). reflexivity.
Defined.

(** ** [set_if_fun] *)

(** X3. For a duration [T] equal to zero (a recording without samples) the
    four chirps raise [ZeroDivisionError] in [set_if_fun], before any power is
    computed, and the pure tone still gets its constant function. *)
Theorem set_if_fun_zero_duration (L : Libs) (T : float) :
  F64.is_zero T = true ->
  (forall signal_id,
     In signal_id ["exponential_downchirp"; "exponential_upchirp";
                   "linear_downchirp"; "linear_upchirp"] ->
     set_if_fun L signal_id T = ([], Raise ZeroDivisionError)) /\
  (exists f, set_if_fun L "pure_tone" T = ([], Ok f) /\ forall t, f t = #2000%fl).
Proof.
  intros HT.
  assert (Hdiv : forall x, py_div x T = Raise ZeroDivisionError)
    by (intros x; unfold py_div; rewrite HT; reflexivity).
  split.
  - intros signal_id [<-|[<-|[<-|[<-|[]]]]]; unfold set_if_fun; cbn [String.eqb Ascii.eqb Bool.eqb];
      rewrite ?Hdiv; reflexivity.
  - eexists. split; [reflexivity|]. intros t. vm_compute. reflexivity.
Qed.

Lemma set_if_fun_zero_duration_witness :
  (forall signal_id,
     In signal_id ["exponential_downchirp"; "exponential_upchirp";
                   "linear_downchirp"; "linear_upchirp"] ->
     set_if_fun Demo.libs signal_id #0%fl = ([], Raise ZeroDivisionError)) /\
  (exists f, set_if_fun Demo.libs "pure_tone" #0%fl = ([], Ok f) /\ forall t, f t = #2000%fl).
Proof. apply (set_if_fun_zero_duration Demo.libs #0%fl). reflexivity. Defined.


(** ** The geodesic distance in the sweep *)

(** X4. Every metric name other than "L2" and "Iatsenko" selects the geodesic
    distance.  The two curves handed to [geod_sphere] are 2 x N arrays that
    share their first row, the time axis from 0 to [T]; their second rows are
    the extracted curve and the ground truth sampled on that axis; the
    stacking of the coordinates cannot fail. *)
Theorem geodesic_measure_of_the_sweep
    (L : Libs) (signal_id opt_metric : string) (TFR tfsupp : ndarray2) (T : float)
    (st : sweep_state) (f : float -> float) (a : ndarray) :
  (opt_metric =? "L2")%string = false ->
  (opt_metric =? "Iatsenko")%string = false ->
  snd (set_if_fun L signal_id T) = Ok f ->
  row0 tfsupp = Ok a ->
  let t_support := np_linspace #0%fl T (length a) in
  fst (measure_point L signal_id opt_metric TFR tfsupp T st)
    = geod_sphere L (mk_ndarray2 2 (length a) (t_support ++ a))
                    (mk_ndarray2 2 (length a) (t_support ++ map f t_support)).
Proof.
  intros H1 H2 Hf Hrow t_support.
  unfold measure_point, bind, print, modify, lift, log_call. rewrite Hf, Hrow, H1, H2.
  cbv beta iota zeta. cbn [fst].
  unfold Geodesic_curve_distance, column_stack_T. fold t_support.
  assert (Hl : length t_support = length a) by apply length_np_linspace.
  rewrite length_map, Hl, Nat.eqb_refl. reflexivity.
Qed.

Lemma geodesic_measure_of_the_sweep_witness :
  let a := [#2000; #2000]%fl in
  let t_support := np_linspace #0%fl #2%fl (length a) in
  fst (measure_point Demo.libs "pure_tone" "Curve_registration"
                     (mk_ndarray2 3 2 (repeat F64.zero 6))
                     (mk_ndarray2 3 2 (a ++ repeat F64.zero 4)) #2%fl fresh)
    = geod_sphere Demo.libs
        (mk_ndarray2 2 (length a) (t_support ++ a))
        (mk_ndarray2 2 (length a) (t_support ++ map (fun _ => #2000 * #1)%fl t_support)).
Proof.
  apply (geodesic_measure_of_the_sweep Demo.libs "pure_tone" "Curve_registration"
           (mk_ndarray2 3 2 (repeat F64.zero 6))
           (mk_ndarray2 3 2 ([#2000; #2000]%fl ++ repeat F64.zero 4)) #2%fl fresh
           (fun _ => #2000 * #1)%fl [#2000; #2000]%fl); reflexivity.
Defined.

(** ** [Renyi_Entropy] *)

Lemma of_Z_neg (p : positive) :
  exists m e, F64.of_Z (Zneg p) = S754_finite true m e \/ F64.of_Z (Zneg p) = S754_infinity true.
Proof.
  unfold F64.of_Z, binary_normalize, binary_round.
  destruct (shl_align p 0 (fexp F64.prec F64.emax (Zpos (digits2_pos p) + 0))) as [mz ez] eqn:E.
  apply binary_round_aux_pos.
  unfold shl_align in E.
  destruct (fexp F64.prec F64.emax (Zpos (digits2_pos p) + 0) - 0) eqn:E'; inversion E; subst;
    unfold emin, fexp, F64.prec, F64.emax in *; lia.
Qed.

(** An integer converts to a zero only when it is 0. *)
Lemma of_Z_is_zero (z : Z) : F64.is_zero #z = (z =? 0).
Proof.
  destruct z as [|p|p]; [reflexivity| |].
  - destruct (of_Z_pos p) as (m & e & [H|H]); rewrite H; reflexivity.
  - destruct (of_Z_neg p) as (m & e & [H|H]); rewrite H; reflexivity.
Qed.



(** ** [IMED_distance] *)

Lemma fold_minimum_constant (c : float) (n : nat) :
  F64.is_nan c = false -> fold_left np_minimum (repeat c n) c = c.
Proof.
  intros H. induction n as [|n IH]; simpl; [reflexivity|].
  unfold np_minimum at 2. rewrite H, ltb_irrefl. exact IH.
Qed.

Lemma fold_maximum_constant (c : float) (n : nat) :
  F64.is_nan c = false -> fold_left np_maximum (repeat c n) c = c.
Proof.
  intros H. induction n as [|n IH]; simpl; [reflexivity|].
  unfold np_maximum at 2. rewrite H, ltb_irrefl. exact IH.
Qed.

(** X6. [IMED_distance] raises [ValueError] when one of the two matrices is
    empty ([np.amin] of an empty array), before [imed.distance] is called.  A
    non-empty matrix whose cells all hold the same finite value has range 0
    and is rescaled to a matrix of NaN: nothing is raised and [imed.distance]
    receives NaN in every cell. *)
Theorem IMED_distance_degenerate_matrices (ML : MoreLibs) (A B : ndarray2) :
  (cells A = [] -> exists msg, IMED_distance ML A B = Raise (ValueError msg)) /\
  (cells B = [] -> exists e, IMED_distance ML A B = Raise e) /\
  (forall c n, cells A = repeat c (S n) -> F64.is_finite c = true ->
     rescale A = Ok (mk_ndarray2 (shape0 A) (shape1 A) (repeat F64.nan (S n))) /\
     IMED_distance ML A B
       = rbind (rescale B)
               (imed_distance ML (mk_ndarray2 (shape0 A) (shape1 A) (repeat F64.nan (S n))))).
Proof.
  split; [|split].
  - intros H. unfold IMED_distance, rescale. rewrite H. eexists. reflexivity.
  - intros H. unfold IMED_distance. destruct (rescale A) as [A2|e]; [|eexists; reflexivity].
    unfold rescale. rewrite H. eexists. reflexivity.
  - intros c n H Hc.
    assert (Hnan : F64.is_nan c = false) by (destruct c; try discriminate; reflexivity).
    assert (E : rescale A = Ok (mk_ndarray2 (shape0 A) (shape1 A) (repeat F64.nan (S n)))).
    { unfold rescale, np_ptp, np_amin, np_amax. rewrite H.
      cbn [repeat rbind]. rewrite fold_minimum_constant, fold_maximum_constant by assumption.
      cbn [rbind]. rewrite sub_self by assumption.
      change (c :: repeat c n) with (repeat c (S n)). rewrite map_repeat.
      rewrite sub_self by assumption. reflexivity. }
    split; [exact E|]. unfold IMED_distance. rewrite E. reflexivity.
Qed.

Lemma IMED_distance_degenerate_matrices_witness :
  let ML := demo_more_libs in
  let A := mk_ndarray2 1 2 (repeat #7%fl 2) in
  rescale A = Ok (mk_ndarray2 1 2 (repeat F64.nan 2)) /\
  IMED_distance ML A A
    = rbind (rescale A) (imed_distance ML (mk_ndarray2 1 2 (repeat F64.nan 2))).
Proof.
  intros ML A.
  apply (proj2 (proj2 (IMED_distance_degenerate_matrices ML A A)) #7%fl 1%nat); reflexivity.
Defined.

(** ** [Signal_to_noise_Ratio] *)

(** X7. Only an empty noise array is handled apart.  For a noise array of
    zeros (digital silence) and a signal of positive mean power the ratio is a
    division by zero, and the function returns ten times the logarithm of plus
    infinity; for an empty signal and any non-empty noise the mean power is
    0/0 and the function returns ten times the logarithm of NaN. *)
Theorem Signal_to_noise_Ratio_degenerate_inputs (L : Libs) :
  (forall signal n,
     (F64.zero <? np_div (np_sum (np_square signal)) (np_len signal))%fl = true ->
     Signal_to_noise_Ratio L signal (repeat F64.zero (S n))
       = VFloat (#10 * np_log10 L F64.inf)%fl) /\
  (forall noise, noise <> [] ->
     Signal_to_noise_Ratio L [] noise = VFloat (#10 * np_log10 L F64.nan)%fl).
Proof.
  split.
  - intros signal n H. unfold Signal_to_noise_Ratio. cbn [repeat length Nat.eqb].
    change (F64.zero :: repeat F64.zero n) with (repeat F64.zero (S n)).
    rewrite np_square_zeros, np_mean_zeros.
    assert (E0 : np_div F64.zero (np_len (repeat F64.zero (S n))) = F64.zero).
    { unfold np_len. rewrite repeat_length. simpl Z.of_nat. apply div_zero_by_pos. }
    rewrite E0.
    destruct (np_div (np_sum (np_square signal)) (np_len signal)) as [s|s| |s m e];
      try discriminate; destruct s; try discriminate; reflexivity.
  - intros noise H. unfold Signal_to_noise_Ratio.
    destruct noise as [|x t]; [congruence|]. reflexivity.
Qed.

Lemma Signal_to_noise_Ratio_degenerate_inputs_witness :
  Signal_to_noise_Ratio Demo.libs [#1; #2]%fl (repeat F64.zero 3)
    = VFloat (#10 * np_log10 Demo.libs F64.inf)%fl /\
  Signal_to_noise_Ratio Demo.libs [] [#1]%fl = VFloat (#10 * np_log10 Demo.libs F64.nan)%fl.
Proof.
  split.
  - apply (proj1 (Signal_to_noise_Ratio_degenerate_inputs Demo.libs) [#1; #2]%fl 2%nat).
    vm_compute. reflexivity.
  - apply (proj2 (Signal_to_noise_Ratio_degenerate_inputs Demo.libs) [#1]%fl). discriminate.
Defined.

(* ================================================================= *)
(** * Further properties of the sweep *)

(** ** The log only grows *)

Lemma at_most_same_log {A} (m : M A) :
  respects same_log m -> respects (appends_at_most 0) m.
Proof.
  intros H st. destruct (H st) as (Hc & _). exists []. rewrite Hc, app_nil_r. auto.
Qed.

Lemma at_most_bind {A B} (n n' : nat) (m : M A) (k : A -> M B) :
  respects (appends_at_most n) m ->
  (forall a, respects (appends_at_most n') (k a)) ->
  respects (appends_at_most (n + n')) (bind m k).
Proof.
  intros Hm Hk st. unfold bind. specialize (Hm st).
  destruct (m st) as [[a|e] st1]; simpl in *.
  - destruct Hm as (r1 & E1 & L1 & F1), (Hk a st1) as (r2 & E2 & L2 & F2).
    exists (r1 ++ r2). rewrite E2, E1, <- app_assoc, length_app.
    repeat split; [lia|]. apply Forall_app; auto.
  - destruct Hm as (r1 & E1 & L1 & F1). exists r1. repeat split; auto. lia.
Qed.

Lemma at_most_for_each {A} (n : nat) (xs : list A) (body : A -> M unit) :
  (forall x, respects (appends_at_most n) (body x)) ->
  respects (appends_at_most (length xs * n)) (for_each xs body).
Proof.
  intros H. induction xs as [|x xs IH]; simpl.
  - intros st. exists []. simpl. rewrite app_nil_r. auto.
  - apply at_most_bind; auto.
Qed.

Lemma log_and_update_at_most (window_width incr spec_dim : Z) (m : float) :
  respects (appends_at_most 1) (log_and_update window_width incr spec_dim m).
Proof.
  intros st. rewrite log_and_update_spec. cbv zeta. cbn [snd].
  exists [data_row window_width incr spec_dim m].
  split; [destruct (m <? opt st)%fl; reflexivity|]. split; [simpl; lia|].
  constructor; [|constructor]. exists window_width, incr, spec_dim, m. reflexivity.
Qed.

Section MoreSweepFacts.

Variable L : Libs.
Variables signal_path signal_id spectrogram_type freq_scale opt_metric : string.

Lemma grid_point_at_most win_len hop window_type alpha beta :
  respects (appends_at_most 1)
    (grid_point L signal_path signal_id spectrogram_type freq_scale opt_metric
                win_len hop window_type alpha beta).
Proof.
  unfold grid_point. apply (at_most_bind 0 1).
  - apply at_most_same_log, evaluate_point_same_log.
  - intros [[[ww incr] dim] m]. apply log_and_update_at_most.
Qed.

(** The loops over the window types, [alpha] and [beta] for one window length
    and one hop: lines 215-267. *)
Lemma block_at_most win_len hop win_type alpha_list beta_list :
  respects (appends_at_most (length win_type * (length alpha_list * (length beta_list * 1))))
    (for_each win_type (fun window_type =>
       for_each alpha_list (fun alpha =>
         for_each beta_list (fun beta =>
           grid_point L signal_path signal_id spectrogram_type freq_scale opt_metric
                      win_len hop window_type alpha beta)))).
Proof.
  apply at_most_for_each; intros window_type.
  apply at_most_for_each; intros alpha. apply at_most_for_each; intros beta.
  apply grid_point_at_most.
Qed.

Lemma sweep_loops_at_most win hop_perc win_type alpha_list beta_list :
  respects (appends_at_most
              (length win * (length hop_perc *
                 (length win_type * (length alpha_list * (length beta_list * 1)) + 0))))
    (sweep_loops L signal_path signal_id spectrogram_type freq_scale opt_metric
                 win hop_perc win_type alpha_list beta_list).
Proof.
  unfold sweep_loops.
  apply at_most_for_each; intros win_len. apply at_most_for_each; intros hop.
  apply at_most_bind; [apply block_at_most|].
  intros _. apply at_most_same_log, del_locals_same_log.
Qed.

End MoreSweepFacts.

(** X8. After any run of the sweep, whether it ends in the loops or after
    them, the log file is the header followed by data rows only, at most one
    for each grid point: rows are appended and never rewritten. *)
Theorem log_is_header_then_data_rows
    (L : Libs) (signal_path signal_id spectrogram_type freq_scale opt_metric : string)
    (win : list Z) (hop_perc : list float) (win_type : list string)
    (alpha_list beta_list : list float) (st : sweep_state) :
  exists rows,
    csv (snd (sweep_on L signal_path signal_id spectrogram_type freq_scale opt_metric
                       win hop_perc win_type alpha_list beta_list st))
      = header :: rows /\
    (length rows <= length win * length hop_perc * length win_type
                    * length alpha_list * length beta_list)%nat /\
    Forall is_data_row rows.
Proof.
  unfold sweep_on, bind at 1. rewrite sweep_init_spec.
  match goal with |- context [mk_state ?a ?b ?c ?d ?e ?f ?g] =>
    set (st0 := mk_state a b c d e f g) end.
  assert (H : respects (appends_at_most
              (length win * (length hop_perc *
                 (length win_type * (length alpha_list * (length beta_list * 1)) + 0)) + 0))
            (sweep_loops L signal_path signal_id spectrogram_type freq_scale opt_metric
                         win hop_perc win_type alpha_list beta_list ;; sweep_return)).
  { apply at_most_bind; [apply sweep_loops_at_most|].
    intros _. apply at_most_same_log, sweep_return_same_log. }
  destruct (H st0) as (rows & E & Hlen & Hrows).
  exists rows. split; [exact E|]. split; [nia|exact Hrows].
Qed.

(** ** The best record and the log *)

Lemma keeps_best_record_refl (st : sweep_state) : keeps_best_record st st.
Proof. intros H; exact H. Qed.

Lemma keeps_best_record_trans (a b c : sweep_state) :
  keeps_best_record a b -> keeps_best_record b c -> keeps_best_record a c.
Proof. unfold keeps_best_record. auto. Qed.

Lemma same_log_keeps_best_record (st st' : sweep_state) :
  same_log st st' -> keeps_best_record st st'.
Proof.
  intros (Hc & Ho & Hp) H. unfold best_record_matches_log in *. rewrite Hc, Ho, Hp. exact H.
Qed.

(** Nothing is strictly above plus infinity. *)
Lemma ltb_not_inf (m x : float) : (m <? x)%fl = true -> m <> F64.inf.
Proof. intros H ->. destruct x as [s|s| |s m e]; try destruct s; discriminate. Qed.

Lemma log_and_update_keeps_best_record (window_width incr spec_dim : Z) (m : float) :
  respects keeps_best_record (log_and_update window_width incr spec_dim m).
Proof.
  intros st Inv. rewrite log_and_update_spec. cbv zeta. cbn [snd].
  unfold best_record_matches_log in *.
  destruct (m <? opt st)%fl eqn:Hlt; cbn [csv opt opt_param set_opt_param set_opt set_csv].
  - right. split; [apply (ltb_not_inf _ _ Hlt)|].
    exists window_width, incr, spec_dim. split.
    + destruct Inv as [(_ & ->)|(_ & ww0 & incr0 & dim0 & -> & _)]; reflexivity.
    + apply in_or_app. right. left. reflexivity.
  - destruct Inv as [Inv|(Hne & ww0 & incr0 & dim0 & Hp & Hin)]; [left; exact Inv|].
    right. split; [exact Hne|]. exists ww0, incr0, dim0. split; [exact Hp|].
    apply in_or_app. left. exact Hin.
Qed.

Section BestRecord.

Variable L : Libs.
Variables signal_path signal_id spectrogram_type freq_scale opt_metric : string.

Lemma sweep_loops_keeps_best_record win hop_perc win_type alpha_list beta_list :
  respects keeps_best_record
    (sweep_loops L signal_path signal_id spectrogram_type freq_scale opt_metric
                 win hop_perc win_type alpha_list beta_list).
Proof.
  unfold sweep_loops.
  pose proof (fun A => @respects_for_each keeps_best_record keeps_best_record_refl
                          keeps_best_record_trans A) as Hfor.
  apply Hfor; intros win_len. apply Hfor; intros hop.
  apply (respects_bind keeps_best_record keeps_best_record_trans).
  - apply Hfor; intros window_type. apply Hfor; intros alpha. apply Hfor; intros beta.
    unfold grid_point. apply (respects_bind keeps_best_record keeps_best_record_trans).
    + eapply respects_weaken; [apply same_log_keeps_best_record|].
      apply evaluate_point_same_log.
    + intros [[[ww incr] dim] m]. apply log_and_update_keeps_best_record.
  - intros _. eapply respects_weaken; [apply same_log_keeps_best_record|].
    apply del_locals_same_log.
Qed.

Lemma init_best_record (st : sweep_state) : best_record_matches_log (snd (sweep_init st)).
Proof. rewrite sweep_init_spec. left. split; reflexivity. Qed.

Lemma sweep_on_best_record win hop_perc win_type alpha_list beta_list (st : sweep_state) :
  best_record_matches_log
    (snd (sweep_on L signal_path signal_id spectrogram_type freq_scale opt_metric
                   win hop_perc win_type alpha_list beta_list st)).
Proof.
  unfold sweep_on, bind at 1. rewrite sweep_init_spec.
  set (st0 := mk_state _ _ _ _ _ _ _).
  assert (H0 : best_record_matches_log st0) by (left; split; reflexivity).
  revert H0. generalize st0. clear st st0.
  change (respects keeps_best_record
    (sweep_loops L signal_path signal_id spectrogram_type freq_scale opt_metric
                 win hop_perc win_type alpha_list beta_list ;; sweep_return)).
  apply (respects_bind keeps_best_record keeps_best_record_trans).
  - apply sweep_loops_keeps_best_record.
  - intros _. eapply respects_weaken; [apply same_log_keeps_best_record|].
    apply sweep_return_same_log.
Qed.

End BestRecord.

(** X9. After any run of the sweep the best record agrees with the log.
    Either no measure has been below plus infinity, and the dictionary of best
    parameters is the initial one; or the dictionary holds, under "win_len"
    and "hop", the window width and the hop of a logged row whose measure is
    the running best, and its entries for the window type, alpha and beta
    (and "window_lenght") still hold their initial empty lists. *)
Theorem best_record_is_a_logged_row
    (L : Libs) (signal_path signal_id spectrogram_type freq_scale opt_metric : string)
    (win : list Z) (hop_perc : list float) (win_type : list string)
    (alpha_list beta_list : list float) (st : sweep_state) :
  let st' := snd (sweep_on L signal_path signal_id spectrogram_type freq_scale opt_metric
                           win hop_perc win_type alpha_list beta_list st) in
  (opt st' = F64.inf /\ opt_param st' = opt_param_init) \/
  (opt st' <> F64.inf /\
   exists window_width incr spec_dim,
     opt_param st' =
       [("window_lenght", VEmptyList); ("hop", VInt incr); ("window_type", VEmptyList);
        ("alpha", VEmptyList); ("beta", VEmptyList); ("win_len", VInt window_width)] /\
     In [CInt window_width; CInt incr; CEmpty; CEmpty; CEmpty; CInt spec_dim;
         CFloat (opt st')] (csv st')).
Proof.
  exact (sweep_on_best_record L signal_path signal_id spectrogram_type freq_scale opt_metric
           win hop_perc win_type alpha_list beta_list st).
Qed.

(** ** The end of a completed sweep *)

Lemma bind_assoc {A B C} (m : M A) (k : A -> M B) (k' : B -> M C) (st : sweep_state) :
  bind (bind m k) k' st = bind m (fun a => bind (k a) k') st.
Proof. unfold bind. destruct (m st) as [[a|e] st1]; reflexivity. Qed.

(** X10. When the loops run to their end the function still raises: a
    [KeyError] for "win_len" when no measure has been below plus infinity (the
    key is only created by the first improvement), and otherwise the
    [NameError] of the [return] statement.  The state is the one the loops
    left. *)
Theorem completed_sweep_ends_in_KeyError_or_NameError
    (L : Libs) (signal_path signal_id spectrogram_type freq_scale opt_metric : string)
    (win : list Z) (hop_perc : list float) (win_type : list string)
    (alpha_list beta_list : list float) (st st1 : sweep_state) :
  (sweep_init ;;
   sweep_loops L signal_path signal_id spectrogram_type freq_scale opt_metric
               win hop_perc win_type alpha_list beta_list) st = (Ok tt, st1) ->
  let run := sweep_on L signal_path signal_id spectrogram_type freq_scale opt_metric
                      win hop_perc win_type alpha_list beta_list st in
  (opt st1 = F64.inf -> run = (Raise (KeyError "win_len"), st1)) /\
  (opt st1 <> F64.inf -> run = (Raise (NameError "window_length_opt"), st1)).
Proof.
  intros H run.
  assert (Hrun : run = sweep_return st1).
  { unfold run, sweep_on. rewrite <- bind_assoc. apply bind_returns with (a := tt). exact H. }
  assert (Inv : best_record_matches_log st1).
  { apply bind_inv in H. destruct H as ([] & st0 & H0 & H1).
    pose proof (sweep_loops_keeps_best_record L signal_path signal_id spectrogram_type
                  freq_scale opt_metric win hop_perc win_type alpha_list beta_list st0) as Hk.
    rewrite H1 in Hk. apply Hk.
    pose proof (init_best_record st) as Hi. rewrite H0 in Hi. exact Hi. }
  rewrite Hrun. unfold sweep_return, bind, gets, lift, raise.
  destruct Inv as [(Ho & Hp)|(Hne & ww & incr & dim & Hp & _)]; rewrite Hp; cbn.
  - split; [reflexivity|congruence].
  - split; [congruence|reflexivity].
Qed.

Lemma completed_sweep_ends_in_KeyError_or_NameError_witness :
  let loops :=
    (sweep_init ;;
     sweep_loops Demo.libs "tone.wav" "pure_tone" "Standard" "Linear" "L2"
                 [32; 64] [#1 / #10; #1 / #4]%fl ["Hann"] [#0; #1 / #4]%fl [#0; #1 / #4]%fl) in
  let run := Demo.sweep16 "pure_tone" "Linear" "L2" fresh in
  (opt (snd (loops fresh)) = F64.inf -> run = (Raise (KeyError "win_len"), snd (loops fresh))) /\
  (opt (snd (loops fresh)) <> F64.inf ->
   run = (Raise (NameError "window_length_opt"), snd (loops fresh))).
Proof.
  apply (completed_sweep_ends_in_KeyError_or_NameError
           Demo.libs "tone.wav" "pure_tone" "Standard" "Linear" "L2"
           [32; 64] [#1 / #10; #1 / #4]%fl ["Hann"] [#0; #1 / #4]%fl [#0; #1 / #4]%fl fresh).
  vm_compute. reflexivity.
Defined.

(** ** The [del] statement and the frequency scale *)

Lemma keeps_fstep_unbound_refl (st : sweep_state) : keeps_fstep_unbound st st.
Proof. intros H; exact H. Qed.

Lemma keeps_fstep_unbound_trans (a b c : sweep_state) :
  keeps_fstep_unbound a b -> keeps_fstep_unbound b c -> keeps_fstep_unbound a c.
Proof. unfold keeps_fstep_unbound. auto. Qed.

(** The last body of a loop that returns decides what holds afterwards. *)
Lemma for_each_last {A} (P : sweep_state -> Prop) (body : A -> M unit) (xs : list A) :
  (forall x st st', body x st = (Ok tt, st') -> P st') ->
  xs <> [] ->
  forall st st', for_each xs body st = (Ok tt, st') -> P st'.
Proof.
  intros Hbody. induction xs as [|x xs IH]; [congruence|]. intros _ st st' H.
  simpl in H. apply bind_inv in H. destruct H as ([] & st1 & H1 & H2).
  destruct xs as [|y xs].
  - inversion H2; subst. eapply Hbody, H1.
  - eapply IH; [discriminate|exact H2].
Qed.

Lemma log_and_update_flags (window_width incr spec_dim : Z) (m : float) (st : sweep_state) :
  locals_bound (snd (log_and_update window_width incr spec_dim m st)) = locals_bound st /\
  fstep_bound (snd (log_and_update window_width incr spec_dim m st)) = fstep_bound st.
Proof.
  rewrite log_and_update_spec. cbv zeta. cbn [snd].
  destruct (m <? opt st)%fl; split; reflexivity.
Qed.

(** Steps that leave [fstep] as it is. *)
Ltac fstep_unbound_step :=
  match goal with
  | |- respects _ (if ?b then _ else _) => destruct b
  | |- respects _ (match ?x with _ => _ end) => destruct x
  | |- respects _ (bind _ _) =>
      apply (respects_bind keeps_fstep_unbound keeps_fstep_unbound_trans)
  | |- respects _ (ret _) => apply (respects_ret keeps_fstep_unbound keeps_fstep_unbound_refl)
  | |- respects _ (raise _) =>
      apply (respects_raise keeps_fstep_unbound keeps_fstep_unbound_refl)
  | |- respects _ (lift _) => apply (respects_lift keeps_fstep_unbound keeps_fstep_unbound_refl)
  | |- respects _ (gets _) => apply (respects_gets keeps_fstep_unbound keeps_fstep_unbound_refl)
  | |- respects _ (modify _) => let H := fresh in intros ? H; exact H
  | |- forall _, _ => intro
  end.

Section DelLocals.

Variable L : Libs.
Variables signal_path signal_id spectrogram_type freq_scale opt_metric : string.

Hypothesis not_linear : (freq_scale =? "Linear")%string = false.

Lemma extract_if_keeps_fstep_unbound win_len hop window_type alpha beta :
  respects keeps_fstep_unbound
    (extract_if L signal_path spectrogram_type freq_scale win_len hop window_type alpha beta).
Proof. unfold extract_if, log_call. rewrite not_linear. repeat fstep_unbound_step. Qed.

Lemma measure_point_keeps_fstep_unbound TFR tfsupp T :
  respects keeps_fstep_unbound (measure_point L signal_id opt_metric TFR tfsupp T).
Proof. unfold measure_point, log_call, print. repeat fstep_unbound_step. Qed.

Lemma grid_point_keeps_fstep_unbound win_len hop window_type alpha beta :
  respects keeps_fstep_unbound
    (grid_point L signal_path signal_id spectrogram_type freq_scale opt_metric
                win_len hop window_type alpha beta).
Proof.
  unfold grid_point, evaluate_point.
  apply (respects_bind keeps_fstep_unbound keeps_fstep_unbound_trans).
  - apply (respects_bind keeps_fstep_unbound keeps_fstep_unbound_trans);
      [apply extract_if_keeps_fstep_unbound|intros [[[[ww incr] TFR] tfsupp] T]].
    apply (respects_bind keeps_fstep_unbound keeps_fstep_unbound_trans);
      [apply measure_point_keeps_fstep_unbound|intros m].
    repeat fstep_unbound_step.
  - intros [[[ww incr] dim] m] st H.
    rewrite (proj2 (log_and_update_flags ww incr dim m st)). exact H.
Qed.

Lemma grid_point_binds_locals win_len hop window_type alpha beta st st' :
  grid_point L signal_path signal_id spectrogram_type freq_scale opt_metric
             win_len hop window_type alpha beta st = (Ok tt, st') ->
  locals_bound st' = true.
Proof.
  unfold grid_point, evaluate_point. intros H.
  apply bind_inv in H. destruct H as ([[[ww incr] dim] m] & st1 & H1 & H2).
  apply bind_inv in H1. destruct H1 as ([[[[ww' incr'] TFR] tfsupp] T] & st2 & _ & H1).
  apply bind_inv in H1. destruct H1 as (m' & st3 & _ & H1).
  inversion H1; subst.
  match type of H2 with
  | log_and_update ?a ?b ?c ?d ?s = _ =>
      pose proof (proj1 (log_and_update_flags a b c d s)) as Hf
  end.
  rewrite H2 in Hf. exact Hf.
Qed.

End DelLocals.

(** X11. With a frequency scale other than "Linear" the variable [fstep] is
    never assigned, and the [del] statement at the end of the first pass of
    the loop over [hop_perc] stops the sweep.  Whatever the libraries do, the
    run raises and the log holds at most the rows of the first window length
    and the first hop (726 of the 25410 grid points); when all the grid points
    of that first block return, the exception is [UnboundLocalError] for
    [fstep] and the log holds exactly their rows. *)
Theorem nonlinear_scale_stops_after_first_block
    (L : Libs) (signal_path signal_id spectrogram_type freq_scale opt_metric : string)
    (w : Z) (ws : list Z) (h : float) (hs : list float) (win_type : list string)
    (alpha_list beta_list : list float) (st : sweep_state) :
  (freq_scale =? "Linear")%string = false ->
  win_type <> [] -> alpha_list <> [] -> beta_list <> [] ->
  let block :=
    for_each win_type (fun window_type =>
      for_each alpha_list (fun alpha =>
        for_each beta_list (fun beta =>
          grid_point L signal_path signal_id spectrogram_type freq_scale opt_metric
                     w h window_type alpha beta))) in
  exists e st' rows,
    sweep_on L signal_path signal_id spectrogram_type freq_scale opt_metric
             (w :: ws) (h :: hs) win_type alpha_list beta_list st = (Raise e, st') /\
    csv st' = header :: rows /\
    (length rows <= length win_type * length alpha_list * length beta_list)%nat /\
    (forall st1, block (snd (sweep_init st)) = (Ok tt, st1) ->
       e = UnboundLocalError "fstep" /\ st' = st1 /\
       length rows = (length win_type * length alpha_list * length beta_list)%nat).
Proof.
  intros Hscale Hwt Hal Hbe block.
  unfold sweep_on, bind at 1. rewrite sweep_init_spec. cbn [snd].
  match goal with |- context [mk_state ?a ?b ?c ?d ?e ?f ?g] =>
    set (st0 := mk_state a b c d e f g) end.
  pose proof (block_at_most L signal_path signal_id spectrogram_type freq_scale opt_metric
                w h win_type alpha_list beta_list st0) as (rows & Hcsv & Hlen & _).
  fold block in Hcsv.
  destruct (block st0) as [[[]|e] st1] eqn:Hblock.
  - (* the block returns: [del] raises *)
    assert (Hbound : locals_bound st1 = true).
    { revert Hblock. unfold block.
      apply (for_each_last (fun s => locals_bound s = true)); [|exact Hwt].
      intros window_type s s'.
      apply (for_each_last (fun s => locals_bound s = true)); [|exact Hal].
      intros alpha s0 s0'.
      apply (for_each_last (fun s => locals_bound s = true)); [|exact Hbe].
      intros beta s1 s1'. apply grid_point_binds_locals. }
    assert (Hfstep : fstep_bound st1 = false).
    { pose proof (fun A => @respects_for_each keeps_fstep_unbound keeps_fstep_unbound_refl
                              keeps_fstep_unbound_trans A) as Hfor.
      assert (Hr : respects keeps_fstep_unbound block).
      { unfold block. apply Hfor; intros window_type. apply Hfor; intros alpha.
        apply Hfor; intros beta. apply grid_point_keeps_fstep_unbound, Hscale. }
      specialize (Hr st0). rewrite Hblock in Hr. apply Hr. reflexivity. }
    assert (Hrows : length rows
                    = (length win_type * (length alpha_list * (length beta_list * 1)))%nat).
    { assert (Ha : adds_rows (length win_type * (length alpha_list * (length beta_list * 1)))
                             block).
      { unfold block. apply adds_rows_for_each; intros window_type.
        apply adds_rows_for_each; intros alpha. apply adds_rows_for_each; intros beta.
        apply grid_point_adds_one_row. }
      destruct (Ha _ _ Hblock) as (rows' & E' & L' & _).
      cbn [snd] in Hcsv. rewrite Hcsv in E'. apply app_inv_head in E'. subst rows'. exact L'. }
    exists (UnboundLocalError "fstep"), st1, rows.
    split; [|split; [exact Hcsv|split; [lia|]]].
    + apply bind_raises. unfold sweep_loops.
      apply for_each_raises, for_each_raises.
      fold block. rewrite (bind_returns _ _ _ _ _ Hblock).
      unfold del_locals, bind, gets, raise. rewrite Hbound. cbn [negb].
      rewrite Hfstep. reflexivity.
    + intros st1' E. inversion E; subst. repeat split. lia.
  - (* a grid point of the block raises *)
    exists e, st1, rows.
    split; [|split; [exact Hcsv|split; [lia|discriminate]]].
    apply bind_raises. unfold sweep_loops.
    apply for_each_raises, for_each_raises, bind_raises. exact Hblock.
Qed.

Lemma nonlinear_scale_stops_after_first_block_witness :
  let block :=
    for_each ["Hann"] (fun window_type =>
      for_each [#0; #1 / #4]%fl (fun alpha =>
        for_each [#0; #1 / #4]%fl (fun beta =>
          grid_point Demo.libs "tone.wav" "pure_tone" "Standard" "Mel Frequency" "L2"
                     32 (#1 / #10)%fl window_type alpha beta))) in
  exists e st' rows,
    Demo.sweep16 "pure_tone" "Mel Frequency" "L2" fresh = (Raise e, st') /\
    csv st' = header :: rows /\
    (length rows <= 1 * 2 * 2)%nat /\
    (forall st1, block (snd (sweep_init fresh)) = (Ok tt, st1) ->
       e = UnboundLocalError "fstep" /\ st' = st1 /\ length rows = (1 * 2 * 2)%nat).
Proof.
  apply (nonlinear_scale_stops_after_first_block
           Demo.libs "tone.wav" "pure_tone" "Standard" "Mel Frequency" "L2"
           32 [64] (#1 / #10)%fl [#1 / #4]%fl ["Hann"] [#0; #1 / #4]%fl [#0; #1 / #4]%fl fresh);
    [reflexivity|discriminate|discriminate|discriminate].
Defined.

(** ** The external calls of a grid point *)

Lemma log_and_update_calls (window_width incr spec_dim : Z) (m : float) (st : sweep_state) :
  calls (snd (log_and_update window_width incr spec_dim m st)) = calls st.
Proof.
  rewrite log_and_update_spec. cbv zeta. cbn [snd]. destruct (m <? opt st)%fl; reflexivity.
Qed.

Lemma measure_point_calls (L : Libs) (signal_id opt_metric : string)
      (TFR tfsupp : ndarray2) (T : float) (st st' : sweep_state) (m : float) :
  measure_point L signal_id opt_metric TFR tfsupp T st = (Ok m, st') ->
  calls st' = calls st ++
    (if (opt_metric =? "L2")%string || (opt_metric =? "Iatsenko")%string then []
     else [CallGeodSphere]).
Proof.
  unfold measure_point, bind, print, modify, lift, log_call, ret.
  destruct (snd (set_if_fun L signal_id T)) as [f|]; [|discriminate].
  destruct (row0 tfsupp) as [a|]; [|discriminate].
  destruct (opt_metric =? "L2")%string.
  - destruct (L2_measure a _ TFR); [|discriminate].
    intros H. inversion H; subst. cbn. rewrite app_nil_r. reflexivity.
  - destruct (opt_metric =? "Iatsenko")%string.
    + intros H. inversion H; subst. cbn. rewrite app_nil_r. reflexivity.
    + destruct (Geodesic_curve_distance L _ a _ _); [|discriminate].
      intros H. inversion H; subst. reflexivity.
Qed.

(** X12. A grid point that is processed to its end reads the recording anew and
    computes its spectrogram and its curve, in this order and once each, with
    its own window width, hop, window type, [alpha] and [beta]: nothing is
    reused from the previous grid point.  The geodesic distance routine is
    called once more when the metric is neither "L2" nor "Iatsenko", and never
    otherwise. *)
Theorem calls_of_a_grid_point
    (L : Libs) (signal_path signal_id spectrogram_type freq_scale opt_metric : string)
    (win_len : Z) (hop : float) (window_type : string) (alpha beta : float)
    (st st' : sweep_state) :
  grid_point L signal_path signal_id spectrogram_type freq_scale opt_metric
             win_len hop window_type alpha beta st = (Ok tt, st') ->
  exists incr,
    py_int (#win_len * hop)%fl = Ok incr /\
    calls st' = calls st
      ++ [CallReadWav signal_path; CallSpectrogram win_len incr window_type;
          CallEcurve alpha beta]
      ++ (if (opt_metric =? "L2")%string || (opt_metric =? "Iatsenko")%string then []
          else [CallGeodSphere]).
Proof.
  unfold grid_point, evaluate_point. intros H.
  apply bind_inv in H. destruct H as ([[[ww incr] dim] m] & st1 & H1 & H2).
  apply bind_inv in H1. destruct H1 as ([[[[ww' incr'] TFR] tfsupp] T] & st2 & He & H1).
  apply bind_inv in H1. destruct H1 as (m' & st3 & Hm & H1).
  inversion H1; subst. clear H1.
  apply extract_if_returns in He. destruct He as (Hincr & _ & _ & Hc2).
  apply measure_point_calls in Hm.
  exists incr. split; [exact Hincr|].
  match type of H2 with
  | log_and_update ?a ?b ?c ?d ?s = _ => pose proof (log_and_update_calls a b c d s) as Hc
  end.
  rewrite H2 in Hc. cbn [snd] in Hc. rewrite Hc. cbn [calls set_locals_bound].
  rewrite Hm, Hc2, <- app_assoc. reflexivity.
Qed.

Lemma calls_of_a_grid_point_witness :
  exists incr,
    py_int (#32 * (#1 / #10))%fl = Ok incr /\
    calls (snd (grid_point Demo.libs "tone.wav" "pure_tone" "Standard" "Linear"
                           "Curve_registration" 32 (#1 / #10)%fl "Hann" #0%fl #0%fl fresh))
      = calls fresh
        ++ [CallReadWav "tone.wav"; CallSpectrogram 32 incr "Hann"; CallEcurve #0 #0]%fl
        ++ (if ("Curve_registration" =? "L2")%string
               || ("Curve_registration" =? "Iatsenko")%string then []
            else [CallGeodSphere]).
Proof.
  apply (calls_of_a_grid_point Demo.libs "tone.wav" "pure_tone" "Standard" "Linear"
           "Curve_registration" 32 (#1 / #10)%fl "Hann" #0%fl #0%fl fresh).
  vm_compute. reflexivity.
Defined.

(** X13's witness: the reduced grid, whose loops run to their end. *)
Lemma completed_loops_log_witness :
  exists rows,
    csv (snd ((sweep_init ;;
               sweep_loops Demo.libs "tone.wav" "pure_tone" "Standard" "Linear" "L2"
                           [32; 64] [#1 / #10; #1 / #4]%fl ["Hann"]
                           [#0; #1 / #4]%fl [#0; #1 / #4]%fl) fresh))
      = header :: rows /\
    length rows = (2 * 2 * 1 * 2 * 2)%nat /\
    Forall is_data_row rows.
Proof.
  apply (completed_loops_log Demo.libs "tone.wav" "pure_tone" "Standard" "Linear" "L2"
           [32; 64] [#1 / #10; #1 / #4]%fl ["Hann"] [#0; #1 / #4]%fl [#0; #1 / #4]%fl fresh).
  vm_compute. reflexivity.
Defined.

(* ================================================================= *)
(** * The script *)

(** X14. The script cannot run a single test.  When the dataset directory can
    be listed, the first pass of the four loops prints "Starting test: 0" and
    then adds the integer [Test_id] to a string, which raises [TypeError]; no
    directory has been created and the sweep has not been called.  When the
    directory cannot be listed the script stops with that error, before the
    loops. *)
Theorem script_stops_in_first_test (os : OS) (st : script_state) :
  (forall signals, listdir os dataset_dir = Done signals ->
     script os st
       = (Fail (TypeError "can only concatenate str to str"),
          mk_script_state (made st) (printed st ++ [StartingTest (VInt 0)]))) /\
  (forall e, listdir os dataset_dir = Fail e -> script os st = (Fail e, st)).
Proof.
  split.
  - intros signals H. unfold script, s_bind, s_lift. rewrite H. reflexivity.
  - intros e H. unfold script, s_bind, s_lift. rewrite H. reflexivity.
Qed.

Lemma script_stops_in_first_test_witness :
  let os := {| listdir := fun _ => Done ["pure_tone"];
               path_exists := fun _ => false;
               mkdir := fun _ => Done tt |} in
  script os (mk_script_state [] [])
    = (Fail (TypeError "can only concatenate str to str"),
       mk_script_state [] [StartingTest (VInt 0)]).
Proof.
  intros os.
  apply (proj1 (script_stops_in_first_test os (mk_script_state [] [])) ["pure_tone"]).
  reflexivity.
Defined.
